(** * amp-smartlinks 0.1: the Linkmate class

    A shallow embedding of [extensions/amp-smartlinks/0.1/linkmate.js]:
    the payload builder ([buildLinksPayload_], [getEditInfo_],
    [postToLinkmate_]), the mapping of an API response onto the anchors
    of the page ([mapLinks_]) and the public entry point ([runLinkmate])
    with the callback it attaches to the request it issues.

    JavaScript values are modelled by [JsVal], exceptions by
    [Completion], and the mutable fields of a Linkmate instance by the
    record [Linkmate], threaded through the state-and-exception monad
    [M]. *)

From Stdlib Require Import String Ascii List Bool Arith Lia.
Import ListNotations.
Open Scope string_scope.
Open Scope list_scope.

(* ===================================================================== *)
(** ** JavaScript values *)
(* ===================================================================== *)

(** The values that can sit in a parsed JSON body or in a property of a
    page element.  A number is kept as its canonical rendering (the text
    [String(n)] gives): two numbers are [===] exactly when their
    renderings agree, and the rendering is all this program ever needs
    of a number.  An object is the list of its own properties, one entry
    per name. *)
#[warnings="-register-all"]
Inductive JsVal : Type :=
| JUndefined
| JNull
| JBool (b : bool)
| JNum (repr : string)
| JStr (s : string)
| JArr (elems : list JsVal)
| JObj (fields : list (string * JsVal)).

(** What a thrown exception or a rejected promise carries.  [TypeError]
    is what the engine raises on [undefined.x] or on calling something
    that is not a function; the other two come from the host: the
    transport ([fetchJson]) and the body decoder ([res.json()]). *)
Inductive JsError : Type :=
| TypeError
| NetworkError (reason : string)
| SyntaxError (reason : string).

Inductive Completion (A : Type) : Type :=
| Normal (a : A)
| Throw (e : JsError).
Arguments Normal {A} a.
Arguments Throw {A} e.

(** ToBoolean. *)
Definition truthy (v : JsVal) : bool :=
  match v with
  | JUndefined | JNull => false
  | JBool b => b
  | JNum r => negb (r =? "0") && negb (r =? "NaN")
  | JStr s => negb (s =? "")
  | JArr _ | JObj _ => true
  end.

(** ToString, where the conversion succeeds (see [convertible] below).
    An array renders as its elements joined by commas, with [undefined]
    and [null] elements rendered empty; an object renders through
    [Object.prototype.toString]. *)
Fixpoint toString (v : JsVal) : string :=
  match v with
  | JUndefined => "undefined"
  | JNull => "null"
  | JBool true => "true"
  | JBool false => "false"
  | JNum r => r
  | JStr s => s
  | JArr l =>
      (fix join (l : list JsVal) : string :=
         match l with
         | [] => ""
         | x :: rest =>
             let sx := match x with
                       | JUndefined | JNull => ""
                       | _ => toString x
                       end in
             match rest with
             | [] => sx
             | _ :: _ => (sx ++ "," ++ join rest)%string
             end
         end) l
  | JObj _ => "[object Object]"
  end.

(** [a === b], for [a] read off a page element and [b] read out of a
    parsed response body.  Primitives compare by value, NaN being equal
    to nothing.  An array or an object is [===] only to itself, and
    nothing inside a freshly parsed body is the same object as a
    property of a page element. *)
Definition strictEquals (a b : JsVal) : bool :=
  match a, b with
  | JUndefined, JUndefined => true
  | JNull, JNull => true
  | JBool x, JBool y => Bool.eqb x y
  | JNum x, JNum y => (x =? y) && negb (x =? "NaN")
  | JStr x, JStr y => (x =? y)
  | _, _ => false
  end.

(** Own-property lookup in an object. *)
Fixpoint lookup (name : string) (fields : list (string * JsVal)) : JsVal :=
  match fields with
  | [] => JUndefined
  | (k, v) :: rest => if k =? name then v else lookup name rest
  end.

Definition nullish (v : JsVal) : bool :=
  match v with
  | JUndefined | JNull => true
  | _ => false
  end.

(** The values ToString accepts.  The conversion of an object calls its
    [toString]; an object that has an own property of that name, which
    in a decoded body is never a function, has nothing to call, and the
    conversion throws a TypeError.  An array is converted element by
    element, [undefined] and [null] apart. *)
Fixpoint convertible (v : JsVal) : bool :=
  match v with
  | JArr l =>
      (fix each (l : list JsVal) : bool :=
         match l with
         | [] => true
         | x :: rest =>
             match x with
             | JUndefined | JNull => true
             | _ => convertible x
             end && each rest
         end) l
  | JObj fields =>
      negb (existsb (fun kv => (fst kv =? "toString")%string) fields)
  | _ => true
  end.

(** ToString as an operation that may throw. *)
Definition toStringC (v : JsVal) : Completion string :=
  if convertible v then Normal (toString v) else Throw TypeError.

(** [v.name] for the names this program reads out of a response
    ([data], [smart_links], [url], [auction_id]).  None of them is
    defined on a built-in prototype, so the read finds an own property
    of an object or nothing; on [undefined] and [null] it throws. *)
Definition getMember (v : JsVal) (name : string) : Completion JsVal :=
  match v with
  | JUndefined | JNull => Throw TypeError
  | JObj fields => Normal (lookup name fields)
  | _ => Normal JUndefined
  end.

(** [v[0]]: the first element of an array, the first character of a
    string, the property ["0"] of an object. *)
Definition getIndex0 (v : JsVal) : Completion JsVal :=
  match v with
  | JUndefined | JNull => Throw TypeError
  | JArr (x :: _) => Normal x
  | JStr (String c _) => Normal (JStr (String c ""))
  | JObj fields => Normal (lookup "0" fields)
  | _ => Normal JUndefined
  end.

(** [re.test(x)] for a regular expression [/lit$/] whose body [lit] is
    literal text: the argument is converted to a string, and the search
    tries every start position for [lit] followed by the end of input.
    The conversion is taken to succeed, as it does on the link of a page
    element, a string; the properties that depend on it say so with
    [convertible]. *)
Fixpoint searchAtEnd (lit s : string) : bool :=
  (s =? lit) ||
  match s with
  | EmptyString => false
  | String _ rest => searchAtEnd lit rest
  end.

Definition regexpTestAtEnd (lit : string) (x : JsVal) : bool :=
  searchAtEnd lit (toString x).

(** [Array.prototype.map] with a callback that may throw: the first
    exception ends the traversal. *)
Fixpoint mapC {A B : Type} (f : A -> Completion B) (l : list A)
  : Completion (list B) :=
  match l with
  | [] => Normal []
  | x :: rest =>
      match f x with
      | Throw e => Throw e
      | Normal y =>
          match mapC f rest with
          | Throw e => Throw e
          | Normal ys => Normal (y :: ys)
          end
      end
  end.

(** [s.replace(pattern, by)] with a string pattern: the first occurrence
    only.  The replacement is inserted as it is; the [$] sequences that
    [replace] expands do not occur in the rendering of a number, which is
    what a publisher id is. *)
Fixpoint dropChars (n : nat) (s : string) : string :=
  match n, s with
  | O, _ => s
  | S n', String _ rest => dropChars n' rest
  | S _, EmptyString => EmptyString
  end.

Fixpoint replaceFirst (pattern by_ s : string) : string :=
  if prefix pattern s
  then (by_ ++ dropChars (String.length pattern) s)%string
  else match s with
       | EmptyString => EmptyString
       | String c rest => String c (replaceFirst pattern by_ rest)
       end.

(* ===================================================================== *)
(** ** The data of the extension *)
(* ===================================================================== *)

(** A page element, as far as this program looks at it: the values of
    its properties. *)
Record Anchor : Type := mkAnchor { anchorProps : list (string * JsVal) }.

(** [anchor[name]]. *)
Definition getProp (anchor : Anchor) (name : string) : JsVal :=
  lookup name (anchorProps anchor).

Record RootNode : Type := mkRootNode { title : JsVal }.

Record AmpDoc : Type := mkAmpDoc {
  getRootNode : RootNode;
  getUrl : string
}.

Record LinkmateOptions : Type := mkLinkmateOptions {
  exclusiveLinks : option bool;
  publisherID : JsVal;
  linkAttribute : string
}.

(** The fields of a Linkmate instance.  [xhr_] is the host's transport;
    what it answers enters the model as an [XhrOutcome] below.  A field
    declared nullable is an [option], [null] being [None]; the response
    field holds whatever the body had at [data[0].smart_links]. *)
Record Linkmate : Type := mkLinkmate {
  ampDoc_ : AmpDoc;
  requestExclusiveLinks_ : option bool;
  publisherID_ : JsVal;
  linkAttribute_ : string;
  rootNode_ : RootNode;
  anchorList_ : option (list Anchor);
  linkmateResponse_ : JsVal
}.

Definition constructor (ampDoc : AmpDoc) (linkmateOptions : LinkmateOptions)
  : Linkmate :=
  {| ampDoc_ := ampDoc;
     requestExclusiveLinks_ := exclusiveLinks linkmateOptions;
     publisherID_ := publisherID linkmateOptions;
     linkAttribute_ := linkAttribute linkmateOptions;
     rootNode_ := getRootNode ampDoc;
     anchorList_ := None;
     linkmateResponse_ := JNull |}.

Definition set_anchorList_ (v : option (list Anchor)) (this : Linkmate)
  : Linkmate :=
  {| ampDoc_ := ampDoc_ this;
     requestExclusiveLinks_ := requestExclusiveLinks_ this;
     publisherID_ := publisherID_ this;
     linkAttribute_ := linkAttribute_ this;
     rootNode_ := rootNode_ this;
     anchorList_ := v;
     linkmateResponse_ := linkmateResponse_ this |}.

Definition set_linkmateResponse_ (v : JsVal) (this : Linkmate) : Linkmate :=
  {| ampDoc_ := ampDoc_ this;
     requestExclusiveLinks_ := requestExclusiveLinks_ this;
     publisherID_ := publisherID_ this;
     linkAttribute_ := linkAttribute_ this;
     rootNode_ := rootNode_ this;
     anchorList_ := anchorList_ this;
     linkmateResponse_ := v |}.

(** One entry of the links payload. *)
Record LinkObj : Type := mkLinkObj {
  raw_url : JsVal;
  exclusive_match_requested : bool
}.

(** The article part of the payload. *)
Record EditInfo : Type := mkEditInfo {
  name : JsVal;
  url : string
}.

Record Payload : Type := mkPayload {
  article : EditInfo;
  links : list LinkObj
}.

Record PostOptions : Type := mkPostOptions {
  method : string;
  ampCors : bool;
  headers : list (string * string);
  body : Payload
}.

(** A call [xhr.fetchJson(fetchUrl, postOptions)]. *)
Record FetchCall : Type := mkFetchCall {
  fetchUrl : string;
  postOptions : PostOptions
}.

(** One entry of a mapping: [replacementUrl] is [None] for [null]. *)
Record MappedLink : Type := mkMappedLink {
  anchor : Anchor;
  replacementUrl : option string
}.

(* ===================================================================== *)
(** ** The state-and-exception monad of the methods *)
(* ===================================================================== *)

Definition M (A : Type) : Type := Linkmate -> Completion A * Linkmate.

Definition ret {A : Type} (a : A) : M A := fun this => (Normal a, this).

Definition bind {A B : Type} (c : M A) (k : A -> M B) : M B :=
  fun this =>
    match c this with
    | (Normal a, this') => k a this'
    | (Throw e, this') => (Throw e, this')
    end.

Definition liftC {A : Type} (c : Completion A) : M A := fun this => (c, this).

Definition getThis : M Linkmate := fun this => (Normal this, this).

Definition modify (f : Linkmate -> Linkmate) : M unit :=
  fun this => (Normal tt, f this).

Declare Scope linkmate_scope.
Delimit Scope linkmate_scope with linkmate.
Notation "x <- c ;; k" := (bind c (fun x => k))
  (at level 61, c at next level, right associativity) : linkmate_scope.
Notation "c ;; k" := (bind c (fun _ => k))
  (at level 61, right associativity) : linkmate_scope.
Open Scope linkmate_scope.

(* ===================================================================== *)
(** ** The methods *)
(* ===================================================================== *)

(** [buildLinksPayload_]: a [forEach] over the anchors that pushes one
    entry per anchor kept. *)
Definition buildLinksPayload_ (this : Linkmate) (anchorList : list Anchor)
  : list LinkObj :=
  fold_left
    (fun postLinks anchor =>
       let link := getProp anchor (linkAttribute_ this) in
       if negb (regexpTestAtEnd "#donotlink" link) then
         let exclusive :=
           match requestExclusiveLinks_ this with
           | Some true => true
           | _ => regexpTestAtEnd "#locklink" link
           end in
         let linkObj :=
           {| raw_url := link; exclusive_match_requested := exclusive |} in
         postLinks ++ [linkObj]
       else postLinks)
    anchorList [].

(** [getEditInfo_]: [title || null] keeps a truthy title. *)
Definition getEditInfo_ (this : Linkmate) : EditInfo :=
  {| name := if truthy (title (rootNode_ this)) then title (rootNode_ this)
             else JNull;
     url := getUrl (ampDoc_ this) |}.

(** The replacement URL of a smart link: the template literal converts
    the auction id to a string. *)
Definition shopLink (auction_id : JsVal) : string :=
  ("https://shop-links.co/" ++ toString auction_id ++ "/?amp=true")%string.

(** The callback of the inner [map] of [mapLinks_]: [smartLink.url] is
    read first, the auction id only when the comparison succeeds; the
    template literal then converts it to a string, which may throw. *)
Definition mapAnchor (this : Linkmate) (smartLink : JsVal) (a : Anchor)
  : Completion MappedLink :=
  match getMember smartLink "url" with
  | Throw e => Throw e
  | Normal u =>
      if strictEquals (getProp a (linkAttribute_ this)) u then
        match getMember smartLink "auction_id" with
        | Throw e => Throw e
        | Normal id =>
            match toStringC id with
            | Throw e => Throw e
            | Normal _ =>
                Normal {| anchor := a;
                          replacementUrl := Some (shopLink id) |}
            end
        end
      else Normal {| anchor := a; replacementUrl := None |}
  end.

(** The callback of the outer [map]: [Array.prototype.slice.call] throws
    on [null]. *)
Definition mapSmartLink (this : Linkmate) (smartLink : JsVal)
  : Completion (list MappedLink) :=
  match anchorList_ this with
  | None => Throw TypeError
  | Some anchors => mapC (mapAnchor this smartLink) anchors
  end.

(** [mapLinks_]: only an array has a [map] method; [flat()] concatenates
    the rows. *)
Definition mapLinks_ (this : Linkmate) : Completion (list MappedLink) :=
  match linkmateResponse_ this with
  | JArr smartLinks =>
      match mapC (mapSmartLink this) smartLinks with
      | Throw e => Throw e
      | Normal mappedLinks => Normal (concat mappedLinks)
      end
  | _ => Throw TypeError
  end.

(** What the promise returned by [postToLinkmate_] settles to: the
    transport rejects, or decoding the body rejects, or the body decodes
    to a value. *)
Inductive XhrOutcome : Type :=
| FetchRejected (e : JsError)
| JsonRejected (e : JsError)
| JsonResolved (res : JsVal).

(** The promise [asyncMappedLinks] of [runLinkmate]: the request that
    was sent and the anchor list its callback closes over. *)
Record AsyncMappedLinks : Type := mkAsyncMappedLinks {
  request : FetchCall;
  closureAnchorList : list Anchor
}.

(** Modelled from the spec: the class [TwoStepsResponse] of
    [link-rewriter/two-steps-response.js], a two-phase result carrying
    the synchronous mapping (possibly absent) and a deferred handle for
    the asynchronous mapping (absent when no request was issued). *)
Record TwoStepsResponse : Type := mkTwoStepsResponse {
  syncResponse : option (list MappedLink);
  asyncResponse : option AsyncMappedLinks
}.

(** [res.data[0]['smart_links']]. *)
Definition readSmartLinks (res : JsVal) : Completion JsVal :=
  match getMember res "data" with
  | Throw e => Throw e
  | Normal data =>
      match getIndex0 data with
      | Throw e => Throw e
      | Normal first => getMember first "smart_links"
      end
  end.

(** The callback [res => {...}] that [runLinkmate] attaches to the
    request, for the anchor list it closes over; it runs on the instance
    as it is when the response arrives. *)
Definition onResponse (anchorList : list Anchor) (res : JsVal)
  : M (list MappedLink) :=
  smartLinks <- liftC (readSmartLinks res) ;;
  modify (set_linkmateResponse_ smartLinks) ;;
  modify (set_anchorList_ (Some anchorList)) ;;
  this <- getThis ;;
  liftC (mapLinks_ this).

(** How [asyncMappedLinks] settles once the host has answered: a
    rejection skips the callback and passes through. *)
Definition settle (p : AsyncMappedLinks) (o : XhrOutcome)
  : M (list MappedLink) :=
  match o with
  | FetchRejected e => liftC (Throw e)
  | JsonRejected e => liftC (Throw e)
  | JsonResolved res => onResponse (closureAnchorList p) res
  end.

Section WithImports.

(** [ENDPOINTS.LINKMATE_ENDPOINT] of [./constants] and [deepEquals] of
    [src/json] are imported by the module; the development is
    parametric in both. *)
Variable LINKMATE_ENDPOINT : string.
Variable deepEquals : list Anchor -> list Anchor -> bool.

(** [postToLinkmate_]: the request it sends.  The publisher id is
    converted to a string by [replace]; for a number the conversion
    always succeeds. *)
Definition postToLinkmate_ (this : Linkmate) (anchorList : list Anchor)
  : FetchCall :=
  let linksPayload := buildLinksPayload_ this anchorList in
  let editPayload := getEditInfo_ this in
  let payload := {| article := editPayload; links := linksPayload |} in
  let fetchUrl_ :=
    replaceFirst ".pub_id." (toString (publisherID_ this))
      LINKMATE_ENDPOINT in
  let postOptions_ :=
    {| method := "POST";
       ampCors := false;
       headers := [("Content-Type", "application/json")];
       body := payload |} in
  {| fetchUrl := fetchUrl_; postOptions := postOptions_ |}.

(** [this.anchorList_ && !deepEquals(this.anchorList_, anchorList)]:
    an array is truthy, also when empty. *)
Definition anchorListChanged (this : Linkmate) (anchorList : list Anchor)
  : bool :=
  match anchorList_ this with
  | None => false
  | Some last => negb (deepEquals last anchorList)
  end.

Definition runLinkmate (anchorList : list Anchor) : M TwoStepsResponse :=
  this <- getThis ;;
  syncMappedLinks <-
    (if truthy (linkmateResponse_ this) && anchorListChanged this anchorList
     then mapped <- liftC (mapLinks_ this) ;; ret (Some mapped)
     else ret None) ;;
  if negb (truthy (linkmateResponse_ this))
     || anchorListChanged this anchorList
  then
    let asyncMappedLinks :=
      {| request := postToLinkmate_ this anchorList;
         closureAnchorList := anchorList |} in
    ret {| syncResponse := syncMappedLinks;
           asyncResponse := Some asyncMappedLinks |}
  else
    modify (set_anchorList_ (Some anchorList)) ;;
    ret {| syncResponse := syncMappedLinks; asyncResponse := None |}.

End WithImports.

(* ===================================================================== *)
(** ** Notions used to state the properties *)
(* ===================================================================== *)

(** [s] ends with the literal text [suffix]. *)
Definition endsWith (suffix s : string) : Prop :=
  exists p : string, s = (p ++ suffix)%string.

(** [anchor[this.linkAttribute_]]. *)
Definition linkOf (this : Linkmate) (a : Anchor) : JsVal :=
  getProp a (linkAttribute_ this).

(** The anchors [buildLinksPayload_] keeps. *)
Definition kept (this : Linkmate) (a : Anchor) : bool :=
  negb (regexpTestAtEnd "#donotlink" (linkOf this a)).

(** The SmartLink of the data model: the two fields of a response item
    that are looked at. *)
Record SmartLink : Type := mkSmartLink {
  link_url : string;
  link_auction_id : string
}.

(** The response item [v] is the smart link [s]: an object whose [url]
    and [auction_id] are the two strings of [s], whatever else it has. *)
Definition describes (v : JsVal) (s : SmartLink) : Prop :=
  getMember v "url" = Normal (JStr (link_url s)) /\
  getMember v "auction_id" = Normal (JStr (link_auction_id s)).

(** A property read that is known not to throw. *)
Definition member (v : JsVal) (key : string) : JsVal :=
  match v with
  | JObj fields => lookup key fields
  | _ => JUndefined
  end.

(** The entry of the pair (smart link, anchor) and the whole mapping of
    a response onto an anchor list, response order outer, anchor order
    inner. *)
Definition entryOf (attr : string) (smartLink : JsVal) (a : Anchor)
  : MappedLink :=
  {| anchor := a;
     replacementUrl :=
       if strictEquals (getProp a attr) (member smartLink "url")
       then Some (shopLink (member smartLink "auction_id"))
       else None |}.

Definition mappingOf (attr : string) (smartLinks : list JsVal)
  (anchors : list Anchor) : list MappedLink :=
  flat_map (fun smartLink => map (entryOf attr smartLink) anchors) smartLinks.

(** A response value on which [mapLinks_] can run: an array none of
    whose items is [undefined] or [null]. *)
Definition smartLinkArray (v : JsVal) : bool :=
  match v with
  | JArr items => forallb (fun item => negb (nullish item)) items
  | _ => false
  end.

(** The condition on which every pair of [items] and [anchors] can be
    mapped: no item is [undefined] or [null], and where the link of an
    anchor is [===] to the [url] of an item, the [auction_id] of that
    item can be converted to a string. *)
Definition mappable (attr : string) (items : list JsVal)
  (anchors : list Anchor) : bool :=
  forallb
    (fun item =>
       negb (nullish item) &&
       forallb
         (fun a =>
            implb (strictEquals (getProp a attr) (member item "url"))
                  (convertible (member item "auction_id")))
         anchors)
    items.

(** Modelled from the spec: [deepEquals] of [src/json], which the module
    imports, compares two anchor lists for structural equality rather
    than identity.  Two values are structurally equal when they are built
    the same way from equal primitives. *)
Fixpoint valueEquals (a b : JsVal) : bool :=
  match a, b with
  | JUndefined, JUndefined => true
  | JNull, JNull => true
  | JBool x, JBool y => Bool.eqb x y
  | JNum x, JNum y => (x =? y)%string
  | JStr x, JStr y => (x =? y)%string
  | JArr l, JArr m =>
      (fix elemsEqual (l m : list JsVal) : bool :=
         match l, m with
         | [], [] => true
         | x :: l', y :: m' => valueEquals x y && elemsEqual l' m'
         | _, _ => false
         end) l m
  | JObj l, JObj m =>
      (fix fieldsEqual (l m : list (string * JsVal)) : bool :=
         match l, m with
         | [], [] => true
         | (k, x) :: l', (k', y) :: m' =>
             (k =? k')%string && valueEquals x y && fieldsEqual l' m'
         | _, _ => false
         end) l m
  | _, _ => false
  end.

Definition anchorEquals (a b : Anchor) : bool :=
  valueEquals (JObj (anchorProps a)) (JObj (anchorProps b)).

Fixpoint structuralEquals (l m : list Anchor) : bool :=
  match l, m with
  | [], [] => true
  | a :: l', b :: m' => anchorEquals a b && structuralEquals l' m'
  | _, _ => false
  end.

(** The entry [buildLinksPayload_] emits for an anchor it keeps. *)
Definition linkObjOf (this : Linkmate) (a : Anchor) : LinkObj :=
  {| raw_url := linkOf this a;
     exclusive_match_requested :=
       match requestExclusiveLinks_ this with
       | Some true => true
       | _ => regexpTestAtEnd "#locklink" (linkOf this a)
       end |}.

(** *** Induction on values *)

Section JsValInduction.

Variable P : JsVal -> Prop.
Hypothesis P_undefined : P JUndefined.
Hypothesis P_null : P JNull.
Hypothesis P_bool : forall b, P (JBool b).
Hypothesis P_num : forall r, P (JNum r).
Hypothesis P_str : forall s, P (JStr s).
Hypothesis P_arr : forall l, Forall P l -> P (JArr l).
Hypothesis P_obj :
  forall fs, Forall (fun kv => P (snd kv)) fs -> P (JObj fs).

(** Induction on values that reaches through arrays and objects. *)
Fixpoint JsVal_deep_ind (v : JsVal) : P v :=
  match v with
  | JUndefined => P_undefined
  | JNull => P_null
  | JBool b => P_bool b
  | JNum r => P_num r
  | JStr s => P_str s
  | JArr l =>
      P_arr l
        ((fix elems (l : list JsVal) : Forall P l :=
            match l with
            | [] => Forall_nil P
            | x :: rest => Forall_cons x (JsVal_deep_ind x) (elems rest)
            end) l)
  | JObj fs =>
      P_obj fs
        ((fix fields (fs : list (string * JsVal))
            : Forall (fun kv => P (snd kv)) fs :=
            match fs with
            | [] => Forall_nil _
            | (k, x) :: rest =>
                Forall_cons (k, x) (JsVal_deep_ind x) (fields rest)
            end) fs)
  end.

End JsValInduction.

(* ===================================================================== *)
(** ** A small page, used for the concrete instances *)
(* ===================================================================== *)

Definition anchorA : Anchor := mkAnchor [("href", JStr "http://a.com")].
Definition anchorB : Anchor := mkAnchor [("href", JStr "http://b.com")].
Definition anchorLocked : Anchor :=
  mkAnchor [("href", JStr "http://b.com#locklink")].
Definition anchorOptedOut : Anchor :=
  mkAnchor [("href", JStr "http://a.com#donotlink")].

Definition smartLinkX1 : JsVal :=
  JObj [("url", JStr "http://a.com"); ("auction_id", JStr "X1")].
Definition smartLinkOptedOut : JsVal :=
  JObj [("url", JStr "http://a.com#donotlink"); ("auction_id", JStr "X2")].

Definition exampleDoc : AmpDoc :=
  {| getRootNode := {| title := JStr "An article" |};
     getUrl := "https://publisher.example/article" |}.

Definition exampleOptions : LinkmateOptions :=
  {| exclusiveLinks := Some false;
     publisherID := JNum "999";
     linkAttribute := "href" |}.

Definition exampleEndpoint : string :=
  "https://linkmate.example/publishers/.pub_id./smart_links".

(** A new instance, and the same instance once the response
    [[smartLinkX1]] has been stored for the anchor list [[anchorA]]. *)
Definition fresh : Linkmate := constructor exampleDoc exampleOptions.

Definition cached : Linkmate :=
  set_anchorList_ (Some [anchorA])
    (set_linkmateResponse_ (JArr [smartLinkX1]) fresh).

(** A decoded body that has [data[0]] but no [smart_links] in it. *)
Definition bodyWithoutSmartLinks : JsVal :=
  JObj [("data", JArr [JObj []])].

Definition bodyX1 : JsVal :=
  JObj [("data", JArr [JObj [("smart_links", JArr [smartLinkX1])]])].

(** The request [cached] issues when it is given [[anchorB]], and the
    one [fresh] issues when it is given [[anchorA]]. *)
Definition pendingB : AsyncMappedLinks :=
  {| request := postToLinkmate_ exampleEndpoint cached [anchorB];
     closureAnchorList := [anchorB] |}.

Definition pendingA : AsyncMappedLinks :=
  {| request := postToLinkmate_ exampleEndpoint fresh [anchorA];
     closureAnchorList := [anchorA] |}.

(** A page with an anchor that opted out, and two smart links stored. *)
Definition twoAnchors : Linkmate :=
  set_anchorList_ (Some [anchorA; anchorB]) cached.

Definition withOptedOut : Linkmate :=
  set_anchorList_ (Some [anchorA; anchorOptedOut])
    (set_linkmateResponse_ (JArr [smartLinkX1; smartLinkOptedOut]) fresh).

(* ===================================================================== *)
(** ** An instance on a page, with its requests in flight *)
(* ===================================================================== *)

(** [Array.isArray]. *)
Definition isArray (v : JsVal) : bool :=
  match v with
  | JArr _ => true
  | _ => false
  end.

(** The instance together with the requests it has issued that the host
    has not answered yet, oldest first. *)
Record Page : Type := mkPage {
  instance : Linkmate;
  inFlight : list AsyncMappedLinks
}.

(** What can happen next: the link rewriter calls [runLinkmate] with the
    anchors of the page, or the host settles one of the requests in
    flight, whichever it likes and however it likes. *)
Inductive Event : Type :=
| Call (anchorList : list Anchor)
| Settle (n : nat) (o : XhrOutcome).

(** The request a call leaves in flight, if any. *)
Definition pendingOf (c : Completion TwoStepsResponse)
  : list AsyncMappedLinks :=
  match c with
  | Normal tsr =>
      match asyncResponse tsr with
      | Some p => [p]
      | None => []
      end
  | Throw _ => []
  end.

Fixpoint removeNth {A : Type} (n : nat) (l : list A) : list A :=
  match n, l with
  | _, [] => []
  | O, _ :: rest => rest
  | S n', x :: rest => x :: removeNth n' rest
  end.

Section Run.

Variable LINKMATE_ENDPOINT : string.
Variable deepEquals : list Anchor -> list Anchor -> bool.

Definition step (pg : Page) (ev : Event) : Page :=
  match ev with
  | Call anchorList =>
      let r := runLinkmate LINKMATE_ENDPOINT deepEquals anchorList
                 (instance pg) in
      {| instance := snd r;
         inFlight := (inFlight pg ++ pendingOf (fst r))%list |}
  | Settle n o =>
      match nth_error (inFlight pg) n with
      | Some p =>
          {| instance := snd (settle p o (instance pg));
             inFlight := removeNth n (inFlight pg) |}
      | None => pg
      end
  end.

Definition exec (events : list Event) (pg : Page) : Page :=
  fold_left step events pg.

End Run.

(** A page right after the instance was constructed. *)
Definition newPage (ampDoc : AmpDoc) (linkmateOptions : LinkmateOptions)
  : Page :=
  {| instance := constructor ampDoc linkmateOptions; inFlight := [] |}.

(** Two instances with the same configuration: they agree on every field
    but the two that cache the last answer. *)
Definition sameConfig (a b : Linkmate) : Prop :=
  ampDoc_ a = ampDoc_ b /\
  requestExclusiveLinks_ a = requestExclusiveLinks_ b /\
  publisherID_ a = publisherID_ b /\
  linkAttribute_ a = linkAttribute_ b /\
  rootNode_ a = rootNode_ b.

(** What holds of a page at all times: the configuration is the one the
    instance was constructed with, a stored response comes with a stored
    anchor list, and every request in flight is the one a new instance
    would send for the same anchors. *)
Definition pageInvariant (endpoint : string) (ampDoc : AmpDoc)
  (linkmateOptions : LinkmateOptions) (pg : Page) : Prop :=
  sameConfig (instance pg) (constructor ampDoc linkmateOptions) /\
  (truthy (linkmateResponse_ (instance pg)) = true ->
   anchorList_ (instance pg) <> None) /\
  (forall p, In p (inFlight pg) ->
             request p
             = postToLinkmate_ endpoint
                 (constructor ampDoc linkmateOptions)
                 (closureAnchorList p)).

(** An instance whose stored response is truthy but has no [map]
    method, with an anchor list in place. *)
Definition poisoned (this : Linkmate) : Prop :=
  truthy (linkmateResponse_ this) = true /\
  isArray (linkmateResponse_ this) = false /\
  anchorList_ this <> None.

(** A decoded body whose [smart_links] is a string. *)
Definition bodyWithText : JsVal :=
  JObj [("data", JArr [JObj [("smart_links", JStr "none")]])].

(** An anchor without an [href] and a smart link without a [url], and an
    instance that has both stored. *)
Definition anchorBare : Anchor := mkAnchor [("id", JStr "top")].
Definition smartLinkBare : JsVal := JObj [("auction_id", JStr "X3")].

Definition withBare : Linkmate :=
  set_anchorList_ (Some [anchorA; anchorBare])
    (set_linkmateResponse_ (JArr [smartLinkX1; smartLinkBare]) fresh).

(** An instance with a response stored for an empty anchor list. *)
Definition noAnchors : Linkmate :=
  set_anchorList_ (Some [])
    (set_linkmateResponse_ (JArr [smartLinkX1; JNull]) fresh).

(** The first entry of the mapping of [twoAnchors]. *)
Definition entryA : MappedLink :=
  {| anchor := anchorA;
     replacementUrl := Some "https://shop-links.co/X1/?amp=true" |}.

(* ===================================================================== *)
(** ** Lemmas on the building blocks *)
(* ===================================================================== *)

(** The regular-expression search for [/lit$/] holds exactly of the
    strings that end with [lit]. *)
Lemma searchAtEnd_endsWith (lit s : string) :
  searchAtEnd lit s = true <-> endsWith lit s.
Proof.
  induction s as [|c rest IH].
  - cbn [searchAtEnd]. rewrite orb_false_r. split.
    + intros H. apply String.eqb_eq in H. subst lit. now exists "".
    + intros [p Hp]. apply String.eqb_eq.
      destruct p; cbn in Hp; [exact Hp | discriminate].
  - cbn [searchAtEnd]. rewrite orb_true_iff, IH. split.
    + intros [H | [p Hp]].
      * apply String.eqb_eq in H. subst lit. now exists "".
      * exists (String c p). cbn. now rewrite Hp.
    + intros [p Hp]. destruct p as [|c' p'].
      * left. apply String.eqb_eq. exact Hp.
      * right. cbn in Hp. injection Hp as _ Hp. now exists p'.
Qed.

Lemma regexpTestAtEnd_endsWith (lit : string) (x : JsVal) :
  regexpTestAtEnd lit x = true <-> endsWith lit (toString x).
Proof. apply searchAtEnd_endsWith. Qed.

(** A loop that pushes onto an accumulator is a filter followed by a
    map. *)
Lemma fold_left_push {A B : Type} (keep : A -> bool) (f : A -> B)
  (l : list A) (acc : list B) :
  fold_left (fun acc x => if keep x then (acc ++ [f x])%list else acc) l acc
  = (acc ++ map f (filter keep l))%list.
Proof.
  revert acc. induction l as [|x l IH]; intros acc; cbn.
  - now rewrite app_nil_r.
  - rewrite IH. destruct (keep x); cbn; [|reflexivity].
    now rewrite <- app_assoc.
Qed.

Lemma buildLinksPayload_filter_map
  (this : Linkmate) (anchorList : list Anchor) :
  buildLinksPayload_ this anchorList
  = map (linkObjOf this) (filter (kept this) anchorList).
Proof.
  unfold buildLinksPayload_.
  exact (fold_left_push (kept this) (linkObjOf this) anchorList []).
Qed.

(** [mapC] with a callback that never throws is [map]. *)
Lemma mapC_Normal {A B : Type} (f : A -> Completion B) (g : A -> B)
  (l : list A) :
  (forall x, In x l -> f x = Normal (g x)) ->
  mapC f l = Normal (map g l).
Proof.
  induction l as [|x l IH]; intros H; cbn; [reflexivity|].
  rewrite (H x (or_introl eq_refl)), IH; [reflexivity|].
  intros y Hy. apply H. now right.
Qed.

Lemma getMember_member (v : JsVal) (key : string) :
  nullish v = false -> getMember v key = Normal (member v key).
Proof. destruct v; cbn; intros H; try discriminate; reflexivity. Qed.

Lemma mapAnchor_entryOf (this : Linkmate) (smartLink : JsVal) (a : Anchor) :
  nullish smartLink = false ->
  implb (strictEquals (getProp a (linkAttribute_ this))
           (member smartLink "url"))
        (convertible (member smartLink "auction_id")) = true ->
  mapAnchor this smartLink a
  = Normal (entryOf (linkAttribute_ this) smartLink a).
Proof.
  intros H Hc. unfold mapAnchor, entryOf, toStringC.
  rewrite !(getMember_member _ _ H).
  destruct (strictEquals _ _); [|reflexivity].
  cbn in Hc. now rewrite Hc.
Qed.

Lemma concat_map_flat_map {A B : Type} (f : A -> list B) (l : list A) :
  concat (map f l) = flat_map f l.
Proof. induction l; cbn; congruence. Qed.

Lemma mappable_smartLinkArray (attr : string) (items : list JsVal)
  (anchors : list Anchor) :
  mappable attr items anchors = true -> smartLinkArray (JArr items) = true.
Proof.
  unfold mappable. cbn [smartLinkArray]. rewrite !forallb_forall.
  intros H item Hin. specialize (H item Hin).
  now apply andb_true_iff in H as [H _].
Qed.

(** On an array of items that can be mapped onto the anchor list in
    place, [mapLinks_] returns the mapping of the one onto the other. *)
Lemma mapLinks_mappingOf (this : Linkmate) (items : list JsVal)
  (anchors : list Anchor) :
  linkmateResponse_ this = JArr items ->
  mappable (linkAttribute_ this) items anchors = true ->
  anchorList_ this = Some anchors ->
  mapLinks_ this = Normal (mappingOf (linkAttribute_ this) items anchors).
Proof.
  intros Hr Hitems Ha. unfold mapLinks_. rewrite Hr.
  unfold mappable in Hitems. rewrite forallb_forall in Hitems.
  rewrite (mapC_Normal (mapSmartLink this)
             (fun s => map (entryOf (linkAttribute_ this) s) anchors)).
  - now rewrite concat_map_flat_map.
  - intros s Hs. unfold mapSmartLink. rewrite Ha.
    specialize (Hitems s Hs). apply andb_true_iff in Hitems as [Hn Hall].
    rewrite forallb_forall in Hall.
    apply mapC_Normal. intros a Hin. apply mapAnchor_entryOf.
    + now apply negb_true_iff.
    + now apply Hall.
Qed.

(** Size and layout of a mapping: row [i] of [|anchors|] entries holds
    the pairs of smart link [i]. *)
Lemma mappingOf_length (attr : string) (items : list JsVal)
  (anchors : list Anchor) :
  length (mappingOf attr items anchors) = length items * length anchors.
Proof.
  unfold mappingOf. induction items as [|s items IH]; cbn; [reflexivity|].
  now rewrite length_app, length_map, IH.
Qed.

Lemma mappingOf_nth_error (attr : string) (items : list JsVal)
  (anchors : list Anchor) (i j : nat) (s : JsVal) (a : Anchor) :
  nth_error items i = Some s ->
  nth_error anchors j = Some a ->
  nth_error (mappingOf attr items anchors) (i * length anchors + j)
  = Some (entryOf attr s a).
Proof.
  unfold mappingOf. revert i.
  induction items as [|s0 items IH]; intros i Hi Hj.
  - destruct i; discriminate.
  - assert (Hlt : j < length anchors)
      by (apply nth_error_Some; congruence).
    destruct i as [|i]; cbn [flat_map].
    + cbn in Hi. injection Hi as ->. cbn [Nat.mul Nat.add].
      rewrite nth_error_app1 by (rewrite length_map; exact Hlt).
      now rewrite nth_error_map, Hj.
    + cbn in Hi. rewrite nth_error_app2 by (rewrite length_map; cbn; lia).
      rewrite length_map.
      replace (S i * length anchors + j - length anchors)
        with (i * length anchors + j) by (cbn; lia).
      now apply IH.
Qed.

(** *** Structural equality decides equality *)

Lemma valueEquals_eq (a b : JsVal) : valueEquals a b = true -> a = b.
Proof.
  revert b. induction a as [ | | x | x | x | l IH | fs IH ]
    using JsVal_deep_ind; intros [ | | y | y | y | m | gs ];
    cbn [valueEquals]; try discriminate; try reflexivity.
  - intros H. apply Bool.eqb_prop in H. now subst.
  - intros H. apply String.eqb_eq in H. now subst.
  - intros H. apply String.eqb_eq in H. now subst.
  - intros H. f_equal. revert m H.
    induction IH as [|x l Hx _ IHl]; intros [|y m] H;
      try discriminate; [reflexivity|].
    apply andb_true_iff in H as [H1 H2].
    f_equal; [now apply Hx | now apply IHl].
  - intros H. f_equal. revert gs H.
    induction IH as [|[k x] fs Hx _ IHfs]; intros [|[k' y] gs] H;
      try discriminate; [reflexivity|].
    apply andb_true_iff in H as [H12 H3].
    apply andb_true_iff in H12 as [H1 H2].
    apply String.eqb_eq in H1. subst k'.
    f_equal; [f_equal; now apply Hx | now apply IHfs].
Qed.

Lemma structuralEquals_eq (l m : list Anchor) :
  structuralEquals l m = true -> l = m.
Proof.
  revert m. induction l as [|a l IH]; intros [|b m] H;
    try discriminate; [reflexivity|].
  cbn [structuralEquals] in H. apply andb_true_iff in H as [H1 H2].
  f_equal; [|now apply IH].
  apply valueEquals_eq in H1. destruct a, b. cbn in H1. congruence.
Qed.

(* ===================================================================== *)
(** ** The three ways through [runLinkmate] *)
(* ===================================================================== *)

Lemma strictEquals_JStr (v : JsVal) (u : string) :
  strictEquals v (JStr u) = true <-> v = JStr u.
Proof.
  destruct v; cbn; split; try discriminate; intros H.
  - apply String.eqb_eq in H. now subst.
  - injection H as ->. apply String.eqb_refl.
Qed.

Lemma describes_nullish (v : JsVal) (s : SmartLink) :
  describes v s -> nullish v = false.
Proof. intros [H _]. destruct v; cbn in *; congruence. Qed.

Lemma describes_member (v : JsVal) (s : SmartLink) :
  describes v s ->
  member v "url" = JStr (link_url s) /\
  member v "auction_id" = JStr (link_auction_id s).
Proof.
  intros H. pose proof (describes_nullish v s H) as Hn.
  destruct H as [H1 H2].
  rewrite (getMember_member _ _ Hn) in H1.
  rewrite (getMember_member _ _ Hn) in H2.
  split; congruence.
Qed.

Lemma describes_smartLinkArray
  (items : list JsVal) (smartLinks : list SmartLink) :
  Forall2 describes items smartLinks -> smartLinkArray (JArr items) = true.
Proof.
  cbn. induction 1 as [|v s items smartLinks Hv _ IH]; cbn; [reflexivity|].
  now rewrite (describes_nullish v s Hv), IH.
Qed.

Lemma describes_mappable (attr : string) (items : list JsVal)
  (smartLinks : list SmartLink) (anchors : list Anchor) :
  Forall2 describes items smartLinks -> mappable attr items anchors = true.
Proof.
  unfold mappable.
  induction 1 as [|v s items smartLinks Hv _ IH]; cbn [forallb];
    [reflexivity|].
  rewrite IH, (describes_nullish v s Hv), andb_true_r. cbn [negb andb].
  destruct (describes_member v s Hv) as [_ Hid]. rewrite Hid.
  apply forallb_forall. intros a _. cbn. apply implb_true_r.
Qed.

Section Reconcile.

Variable LINKMATE_ENDPOINT : string.
Variable deepEquals : list Anchor -> list Anchor -> bool.

(** No response stored: a request, and nothing synchronous. *)
Lemma runLinkmate_unset (this : Linkmate) (anchorList : list Anchor) :
  truthy (linkmateResponse_ this) = false ->
  runLinkmate LINKMATE_ENDPOINT deepEquals anchorList this
  = (Normal {| syncResponse := None;
               asyncResponse :=
                 Some {| request := postToLinkmate_ LINKMATE_ENDPOINT this anchorList;
                         closureAnchorList := anchorList |} |},
     this).
Proof.
  intros H. unfold runLinkmate, bind, getThis, ret.
  now rewrite H.
Qed.

(** A response stored and the anchor list changed: the synchronous
    mapping is [mapLinks_] on the instance as it stands, and a request
    follows unless that mapping threw. *)
Lemma runLinkmate_changed (this : Linkmate) (anchorList : list Anchor) :
  truthy (linkmateResponse_ this) = true ->
  anchorListChanged deepEquals this anchorList = true ->
  runLinkmate LINKMATE_ENDPOINT deepEquals anchorList this
  = match mapLinks_ this with
    | Normal mapped =>
        (Normal {| syncResponse := Some mapped;
                   asyncResponse :=
                     Some {| request := postToLinkmate_ LINKMATE_ENDPOINT this anchorList;
                             closureAnchorList := anchorList |} |},
         this)
    | Throw e => (Throw e, this)
    end.
Proof.
  intros H1 H2. unfold runLinkmate, bind, getThis, ret, liftC.
  rewrite H1, H2. cbn. now destruct (mapLinks_ this).
Qed.

(** A response stored and the anchor list not changed: no request, the
    anchor list is taken over. *)
Lemma runLinkmate_unchanged (this : Linkmate) (anchorList : list Anchor) :
  truthy (linkmateResponse_ this) = true ->
  anchorListChanged deepEquals this anchorList = false ->
  runLinkmate LINKMATE_ENDPOINT deepEquals anchorList this
  = (Normal {| syncResponse := None; asyncResponse := None |},
     set_anchorList_ (Some anchorList) this).
Proof.
  intros H1 H2. unfold runLinkmate, bind, getThis, ret, modify.
  now rewrite H1, H2.
Qed.

(** The callback on a body that cannot be read at
    [data[0]['smart_links']]: the exception comes before any
    assignment. *)
Lemma onResponse_unreadable (anchorList : list Anchor) (res : JsVal)
  (e : JsError) (now : Linkmate) :
  readSmartLinks res = Throw e ->
  onResponse anchorList res now = (Throw e, now).
Proof.
  intros H. unfold onResponse, bind, liftC. now rewrite H.
Qed.

(** The callback on a body that can be read: both fields are assigned,
    then the mapping is computed from them. *)
Lemma onResponse_readable (anchorList : list Anchor) (res v : JsVal)
  (now : Linkmate) :
  readSmartLinks res = Normal v ->
  onResponse anchorList res now
  = (mapLinks_ (set_anchorList_ (Some anchorList)
                  (set_linkmateResponse_ v now)),
     set_anchorList_ (Some anchorList) (set_linkmateResponse_ v now)).
Proof.
  intros H. unfold onResponse, bind, liftC, modify, getThis. now rewrite H.
Qed.

Lemma readSmartLinks_TypeError (res : JsVal) (e : JsError) :
  readSmartLinks res = Throw e -> e = TypeError.
Proof.
  unfold readSmartLinks.
  destruct res as [ | | | | | | fs]; cbn; try congruence;
    try (destruct (lookup "data" fs) as [ | | | | [|c r] | [|x l] | gs]);
    cbn; try congruence;
    match goal with
    | |- getMember ?v _ = _ -> _ => destruct v; cbn; congruence
    end.
Qed.


(** With a list of smart links stored and the anchor list changed, the
    synchronous half is the mapping of the stored response onto the
    stored anchor list; the list given to the call goes into the request
    only. *)
Lemma runLinkmate_sync_from_stored_anchors
  (this : Linkmate) (anchorList last : list Anchor) (items : list JsVal) :
  linkmateResponse_ this = JArr items ->
  mappable (linkAttribute_ this) items last = true ->
  anchorList_ this = Some last ->
  deepEquals last anchorList = false ->
  runLinkmate LINKMATE_ENDPOINT deepEquals anchorList this
  = (Normal
       {| syncResponse := Some (mappingOf (linkAttribute_ this) items last);
          asyncResponse :=
            Some {| request :=
                      postToLinkmate_ LINKMATE_ENDPOINT this anchorList;
                    closureAnchorList := anchorList |} |},
     this).
Proof.
  intros Hr Hitems Hlast Hneq.
  assert (Ht : truthy (linkmateResponse_ this) = true) by now rewrite Hr.
  assert (Hc : anchorListChanged deepEquals this anchorList = true).
  { unfold anchorListChanged. now rewrite Hlast, Hneq. }
  rewrite (runLinkmate_changed this anchorList Ht Hc).
  now rewrite (mapLinks_mappingOf this items last Hr Hitems Hlast).
Qed.

(** Every call of [runLinkmate] goes one of the three ways. *)
Lemma runLinkmate_cases (this : Linkmate) (anchorList : list Anchor) :
  let pending :=
    {| request := postToLinkmate_ LINKMATE_ENDPOINT this anchorList;
       closureAnchorList := anchorList |} in
  (truthy (linkmateResponse_ this) = false /\
   runLinkmate LINKMATE_ENDPOINT deepEquals anchorList this
   = (Normal {| syncResponse := None; asyncResponse := Some pending |},
      this))
  \/
  (truthy (linkmateResponse_ this) = true /\
   anchorListChanged deepEquals this anchorList = true /\
   ((exists mapped,
        mapLinks_ this = Normal mapped /\
        runLinkmate LINKMATE_ENDPOINT deepEquals anchorList this
        = (Normal {| syncResponse := Some mapped;
                     asyncResponse := Some pending |}, this))
    \/
    (exists e,
        mapLinks_ this = Throw e /\
        runLinkmate LINKMATE_ENDPOINT deepEquals anchorList this
        = (Throw e, this))))
  \/
  (truthy (linkmateResponse_ this) = true /\
   anchorListChanged deepEquals this anchorList = false /\
   runLinkmate LINKMATE_ENDPOINT deepEquals anchorList this
   = (Normal {| syncResponse := None; asyncResponse := None |},
      set_anchorList_ (Some anchorList) this)).
Proof.
  intros pending.
  destruct (truthy (linkmateResponse_ this)) eqn:Hr.
  - destruct (anchorListChanged deepEquals this anchorList) eqn:Hc.
    + right; left. repeat split.
      rewrite (runLinkmate_changed this anchorList Hr Hc).
      destruct (mapLinks_ this) as [mapped|e].
      * left. now exists mapped.
      * right. now exists e.
    + right; right. repeat split.
      now apply runLinkmate_unchanged.
  - left. split; [reflexivity|]. now apply runLinkmate_unset.
Qed.

(** C3 (as amended).  For every call of [runLinkmate] that issues a
    request, the call itself leaves the instance as it was, and if the
    transport rejects, or decoding the body rejects, or the decoded body
    cannot be read at [data[0]['smart_links']], then the deferred half
    rejects with that failure and the instance, whatever its state when
    the answer arrives, is left exactly as it is: neither
    [linkmateResponse_] nor [anchorList_] is assigned. *)
Theorem settle_failure_keeps_state
  (this this1 : Linkmate) (anchorList : list Anchor)
  (tsr : TwoStepsResponse) (p : AsyncMappedLinks) :
  runLinkmate LINKMATE_ENDPOINT deepEquals anchorList this
  = (Normal tsr, this1) ->
  asyncResponse tsr = Some p ->
  this1 = this /\
  forall now : Linkmate,
    (forall e, settle p (FetchRejected e) now = (Throw e, now)) /\
    (forall e, settle p (JsonRejected e) now = (Throw e, now)) /\
    (forall res e,
        readSmartLinks res = Throw e ->
        settle p (JsonResolved res) now = (Throw e, now)).
Proof.
  intros Hrun Hp.
  assert (Hsettle : forall now : Linkmate,
    (forall e, settle p (FetchRejected e) now = (Throw e, now)) /\
    (forall e, settle p (JsonRejected e) now = (Throw e, now)) /\
    (forall res e,
        readSmartLinks res = Throw e ->
        settle p (JsonResolved res) now = (Throw e, now))).
  { intros now. repeat split; try reflexivity.
    intros res e Hres. cbn [settle]. now apply onResponse_unreadable. }
  split; [|exact Hsettle].
  destruct (runLinkmate_cases this anchorList)
    as [[_ H] | [(_ & _ & [(m & _ & H) | (e & _ & H)]) | (_ & _ & H)]];
    rewrite H in Hrun; injection Hrun; intros; subst; try reflexivity.
  cbn in Hp. discriminate.
Qed.

(** C4.  With a response stored, and [deepEquals] telling apart any two
    anchor lists that differ, two calls in succession with anchor lists
    structurally equal to the stored one both return without a request:
    the second call returns a result with no asynchronous half (and a
    null synchronous half), and it leaves the instance in the state the
    first call left it in. *)
Theorem runLinkmate_idempotent
  (this : Linkmate) (last first second : list Anchor) :
  (forall l m, deepEquals l m = true -> l = m) ->
  truthy (linkmateResponse_ this) = true ->
  anchorList_ this = Some last ->
  deepEquals last first = true ->
  deepEquals last second = true ->
  exists this1 : Linkmate,
    runLinkmate LINKMATE_ENDPOINT deepEquals first this
    = (Normal {| syncResponse := None; asyncResponse := None |}, this1) /\
    runLinkmate LINKMATE_ENDPOINT deepEquals second this1
    = (Normal {| syncResponse := None; asyncResponse := None |}, this1).
Proof.
  intros Hsound Hr Hlast H1 H2.
  pose proof (Hsound _ _ H1) as E1. pose proof (Hsound _ _ H2) as E2.
  subst first second.
  assert (Hsame : set_anchorList_ (Some last) this = this).
  { destruct this; cbn in *. now subst. }
  assert (Hc : anchorListChanged deepEquals this last = false).
  { unfold anchorListChanged. now rewrite Hlast, H1. }
  exists this. rewrite (runLinkmate_unchanged this last Hr Hc), Hsame.
  now split.
Qed.

(** What a call assigns, in any state: [linkmateResponse_] never, and
    [anchorList_] only when it issues no request, to the anchor list it
    was given.  A call that issues a request, or that throws, leaves the
    instance as it was, and a request that is rejected leaves it as it
    is. *)
Lemma runLinkmate_frame (this : Linkmate) (anchorList : list Anchor) :
  match runLinkmate LINKMATE_ENDPOINT deepEquals anchorList this with
  | (Normal tsr, this1) =>
      linkmateResponse_ this1 = linkmateResponse_ this /\
      match asyncResponse tsr with
      | Some p =>
          this1 = this /\
          forall (now : Linkmate) (e : JsError),
            settle p (FetchRejected e) now = (Throw e, now) /\
            settle p (JsonRejected e) now = (Throw e, now)
      | None => this1 = set_anchorList_ (Some anchorList) this
      end
  | (Throw _, this1) => this1 = this
  end.
Proof.
  destruct (runLinkmate_cases this anchorList)
    as [[_ H] | [(_ & _ & [(m & _ & H) | (e & _ & H)]) | (_ & _ & H)]];
    rewrite H; cbn; auto.
Qed.

(** C9.  A call of [runLinkmate] returns without a request exactly when
    a response is stored and the anchor list is not reported changed
    (none is stored, or [deepEquals] finds the stored one equal to the
    one given); the synchronous mapping of such a result is null.  So a
    synchronous mapping is only ever returned together with a pending
    request. *)
Theorem runLinkmate_sync_needs_request
  (this this1 : Linkmate) (anchorList : list Anchor)
  (tsr : TwoStepsResponse) :
  runLinkmate LINKMATE_ENDPOINT deepEquals anchorList this
  = (Normal tsr, this1) ->
  (asyncResponse tsr = None <->
   truthy (linkmateResponse_ this) = true /\
   (anchorList_ this = None \/
    exists last, anchorList_ this = Some last /\
                 deepEquals last anchorList = true)) /\
  (asyncResponse tsr = None -> syncResponse tsr = None) /\
  (syncResponse tsr <> None -> asyncResponse tsr <> None).
Proof.
  intros Hrun.
  assert (Hchanged : anchorListChanged deepEquals this anchorList = false <->
                     (anchorList_ this = None \/
                      exists last, anchorList_ this = Some last /\
                                   deepEquals last anchorList = true)).
  { unfold anchorListChanged. destruct (anchorList_ this) as [last|].
    - rewrite negb_false_iff. split.
      + intros H. right. now exists last.
      + intros [H | (l & H & H')]; congruence.
    - split; auto. }
  destruct (runLinkmate_cases this anchorList)
    as [[Hr H] | [(Hr & Hc & [(m & _ & H) | (e & _ & H)]) | (Hr & Hc & H)]];
    rewrite H in Hrun; try discriminate;
    injection Hrun as <- <-; cbn [asyncResponse syncResponse].
  - split; [split; [discriminate | intros [Ht _]; congruence]|].
    split; [discriminate | congruence].
  - split; [split; [discriminate|]|].
    + intros [_ H']. apply Hchanged in H'. congruence.
    + split; discriminate.
  - split; [split; [|reflexivity]|].
    + intros _. split; [exact Hr | now apply Hchanged].
    + split; congruence.
Qed.

End Reconcile.

(* ===================================================================== *)
(** ** The mapping and the payload *)
(* ===================================================================== *)

Lemma Forall2_nth_error_r {A B : Type} (R : A -> B -> Prop)
  (l : list A) (m : list B) (i : nat) (y : B) :
  Forall2 R l m -> nth_error m i = Some y ->
  exists x, nth_error l i = Some x /\ R x y.
Proof.
  intros H. revert i. induction H as [|x0 y0 l m Hxy _ IH]; intros i Hi.
  - destruct i; discriminate.
  - destruct i as [|i]; cbn in *.
    + injection Hi as ->. now exists x0.
    + now apply IH.
Qed.

Lemma Forall2_nth_error_l_In {A B : Type} (R : A -> B -> Prop)
  (l : list A) (m : list B) (x : A) :
  Forall2 R l m -> In x l -> exists y, R x y.
Proof.
  induction 1 as [|x0 y0 l m Hxy _ IH]; intros Hin; [destruct Hin|].
  destruct Hin as [<- | Hin]; [now exists y0 | now apply IH].
Qed.

Lemma entryOf_described (attr : string) (v : JsVal) (s : SmartLink)
  (a : Anchor) :
  describes v s ->
  entryOf attr v a
  = {| anchor := a;
       replacementUrl :=
         if strictEquals (getProp a attr) (JStr (link_url s))
         then Some ("https://shop-links.co/" ++ link_auction_id s
                    ++ "/?amp=true")%string
         else None |}.
Proof.
  intros H. destruct (describes_member v s H) as [Hu Hid].
  unfold entryOf. now rewrite Hu, Hid.
Qed.

(** [mapLinks_] on a stored list of smart links: the result and the
    entry at each position. *)
Lemma mapLinks_described (this : Linkmate) (items : list JsVal)
  (smartLinks : list SmartLink) (anchors : list Anchor) :
  linkmateResponse_ this = JArr items ->
  Forall2 describes items smartLinks ->
  anchorList_ this = Some anchors ->
  mapLinks_ this = Normal (mappingOf (linkAttribute_ this) items anchors) /\
  forall i j s a,
    nth_error smartLinks i = Some s ->
    nth_error anchors j = Some a ->
    nth_error (mappingOf (linkAttribute_ this) items anchors)
      (i * length anchors + j)
    = Some {| anchor := a;
              replacementUrl :=
                if strictEquals (linkOf this a) (JStr (link_url s))
                then Some ("https://shop-links.co/" ++ link_auction_id s
                           ++ "/?amp=true")%string
                else None |}.
Proof.
  intros Hr Hitems Ha. split.
  - apply mapLinks_mappingOf; try assumption.
    now apply (describes_mappable _ items smartLinks).
  - intros i j s a Hi Hj.
    destruct (Forall2_nth_error_r _ _ _ _ _ Hitems Hi) as (v & Hv & Hvs).
    rewrite (mappingOf_nth_error _ _ _ _ _ _ _ Hv Hj).
    now rewrite (entryOf_described _ _ _ _ Hvs).
Qed.

(** C2.  For every stored list of smart links and stored anchor list,
    [mapLinks_] returns a flat sequence of exactly |smart links| x
    |anchors| entries, response order outer and anchor order inner: the
    entry at position [i * |anchors| + j] is the one of smart link [i]
    and anchor [j], and its [replacementUrl] is
    ["https://shop-links.co/" ++ auction_id ++ "/?amp=true"] when the
    link attribute of the anchor is exactly the [url] of the smart link,
    and null otherwise. *)
Theorem mapLinks_layout (this : Linkmate) (items : list JsVal)
  (smartLinks : list SmartLink) (anchors : list Anchor) :
  linkmateResponse_ this = JArr items ->
  Forall2 describes items smartLinks ->
  anchorList_ this = Some anchors ->
  exists mapped,
    mapLinks_ this = Normal mapped /\
    length mapped = length smartLinks * length anchors /\
    forall i j s a,
      nth_error smartLinks i = Some s ->
      nth_error anchors j = Some a ->
      exists r,
        nth_error mapped (i * length anchors + j)
        = Some {| anchor := a; replacementUrl := r |} /\
        (linkOf this a = JStr (link_url s) ->
         r = Some ("https://shop-links.co/" ++ link_auction_id s
                   ++ "/?amp=true")%string) /\
        (linkOf this a <> JStr (link_url s) -> r = None).
Proof.
  intros Hr Hitems Ha.
  destruct (mapLinks_described this items smartLinks anchors Hr Hitems Ha)
    as [Hm Hnth].
  exists (mappingOf (linkAttribute_ this) items anchors).
  split; [exact Hm|]. split.
  - rewrite mappingOf_length. now rewrite (Forall2_length Hitems).
  - intros i j s a Hi Hj. rewrite (Hnth i j s a Hi Hj).
    eexists. split; [reflexivity|].
    destruct (strictEquals (linkOf this a) (JStr (link_url s))) eqn:E.
    + apply strictEquals_JStr in E. split; [reflexivity | congruence].
    + split; [|reflexivity]. intros E'.
      apply strictEquals_JStr in E'. congruence.
Qed.

Lemma kept_endsWith (this : Linkmate) (a : Anchor) :
  kept this a = true <-> ~ endsWith "#donotlink" (toString (linkOf this a)).
Proof.
  unfold kept. rewrite negb_true_iff, <- regexpTestAtEnd_endsWith.
  destruct (regexpTestAtEnd "#donotlink" (linkOf this a)); split;
    congruence.
Qed.

Lemma buildLinksPayload_In (this : Linkmate) (anchorList : list Anchor)
  (entry : LinkObj) :
  In entry (buildLinksPayload_ this anchorList) <->
  exists a, In a anchorList /\ kept this a = true /\
            entry = linkObjOf this a.
Proof.
  rewrite buildLinksPayload_filter_map, in_map_iff. split.
  - intros (a & <- & Ha). apply filter_In in Ha as [Ha Hk]. now exists a.
  - intros (a & Ha & Hk & ->). exists a. split; [reflexivity|].
    apply filter_In. now split.
Qed.

(** C7.  For every anchor list, no entry of the links payload has a
    [raw_url] ending in ["#donotlink"]; the anchors whose link does not
    end in it contribute one entry each, in the order of the anchor list,
    and the [raw_url] of the entry is the value of the configured link
    attribute of the anchor. *)
Theorem buildLinksPayload_skips_donotlink
  (this : Linkmate) (anchorList : list Anchor) :
  (forall entry, In entry (buildLinksPayload_ this anchorList) ->
                 ~ endsWith "#donotlink" (toString (raw_url entry))) /\
  map raw_url (buildLinksPayload_ this anchorList)
  = map (linkOf this) (filter (kept this) anchorList) /\
  (forall a, kept this a = true <->
             ~ endsWith "#donotlink" (toString (linkOf this a))).
Proof.
  split; [|split].
  - intros entry H. apply buildLinksPayload_In in H as (a & _ & Hk & ->).
    now apply kept_endsWith.
  - rewrite buildLinksPayload_filter_map, map_map. reflexivity.
  - apply kept_endsWith.
Qed.

(** C8.  Every entry of the links payload comes from an anchor of the
    list, carries the link of that anchor, and has
    [exclusive_match_requested] true exactly when the exclusive-links
    option is true or the link ends in ["#locklink"], and false
    otherwise. *)
Theorem buildLinksPayload_exclusive
  (this : Linkmate) (anchorList : list Anchor) (entry : LinkObj) :
  In entry (buildLinksPayload_ this anchorList) ->
  exists a,
    In a anchorList /\
    raw_url entry = linkOf this a /\
    (exclusive_match_requested entry = true <->
     requestExclusiveLinks_ this = Some true \/
     endsWith "#locklink" (toString (linkOf this a))).
Proof.
  intros H. apply buildLinksPayload_In in H as (a & Ha & _ & ->).
  exists a. split; [exact Ha|]. split; [reflexivity|].
  cbn [linkObjOf exclusive_match_requested].
  rewrite <- regexpTestAtEnd_endsWith.
  destruct (requestExclusiveLinks_ this) as [[|]|];
    destruct (regexpTestAtEnd "#locklink" (linkOf this a));
    split; auto; intros [H | H]; congruence.
Qed.

(** C10.  An anchor whose link ends in ["#donotlink"] has no entry in
    the links payload, yet [mapLinks_] pairs it with every stored smart
    link: the mapping holds an entry for it in the row of each smart
    link, and that entry carries the replacement URL of the smart link
    whenever the link attribute of the anchor is exactly its [url]. *)
Theorem mapLinks_keeps_donotlink_anchors
  (this : Linkmate) (items : list JsVal) (smartLinks : list SmartLink)
  (anchors : list Anchor) (a : Anchor) (j : nat) :
  linkmateResponse_ this = JArr items ->
  Forall2 describes items smartLinks ->
  anchorList_ this = Some anchors ->
  nth_error anchors j = Some a ->
  endsWith "#donotlink" (toString (linkOf this a)) ->
  (forall entry, In entry (buildLinksPayload_ this anchors) ->
                 raw_url entry <> linkOf this a) /\
  exists mapped,
    mapLinks_ this = Normal mapped /\
    forall i s,
      nth_error smartLinks i = Some s ->
      exists r,
        nth_error mapped (i * length anchors + j)
        = Some {| anchor := a; replacementUrl := r |} /\
        (linkOf this a = JStr (link_url s) ->
         r = Some ("https://shop-links.co/" ++ link_auction_id s
                   ++ "/?amp=true")%string).
Proof.
  intros Hr Hitems Ha Hj Hends. split.
  - intros entry H E.
    apply buildLinksPayload_In in H as (b & _ & Hk & ->).
    cbn [linkObjOf raw_url] in E. apply kept_endsWith in Hk.
    apply Hk. now rewrite E.
  - destruct (mapLinks_described this items smartLinks anchors Hr Hitems Ha)
      as [Hm Hnth].
    exists (mappingOf (linkAttribute_ this) items anchors).
    split; [exact Hm|]. intros i s Hi. rewrite (Hnth i j s a Hi Hj).
    eexists. split; [reflexivity|]. intros E.
    apply strictEquals_JStr in E. now rewrite E.
Qed.

(* ===================================================================== *)
(** ** The example page *)
(* ===================================================================== *)

(** The two worked examples of the specification: a payload and a
    mapping. *)
Example buildLinksPayload_example :
  buildLinksPayload_ fresh [anchorA; anchorLocked]
  = [ {| raw_url := JStr "http://a.com";
         exclusive_match_requested := false |};
      {| raw_url := JStr "http://b.com#locklink";
         exclusive_match_requested := true |} ].
Proof. reflexivity. Qed.

Example mapLinks_example :
  mapLinks_ twoAnchors
  = Normal [ {| anchor := anchorA;
                replacementUrl :=
                  Some "https://shop-links.co/X1/?amp=true" |};
             {| anchor := anchorB; replacementUrl := None |} ].
Proof. reflexivity. Qed.

(** A first call on a new instance, answered with [bodyX1], ends in the
    state [cached]. *)
Example first_call_example :
  runLinkmate exampleEndpoint structuralEquals [anchorA] fresh
  = (Normal {| syncResponse := None; asyncResponse := Some pendingA |},
     fresh)
  /\ settle pendingA (JsonResolved bodyX1) fresh
     = (Normal [ {| anchor := anchorA;
                    replacementUrl :=
                      Some "https://shop-links.co/X1/?amp=true" |} ],
        cached).
Proof. split; reflexivity. Qed.

(** C1 (where the code departs from it).  The instance [cached] holds the
    response [[smartLinkX1]] for the anchor list [[anchorA]] and is given
    [[anchorB]], which differs.  The synchronous mapping it returns is
    not null, but it is the mapping of the stored response onto the
    stored anchor list [[anchorA]], whose anchor gets the shop link, and
    not the mapping onto the list [[anchorB]] passed to the call, which
    has one entry, for [anchorB], with a null replacement. *)
Theorem runLinkmate_sync_maps_stored_anchors :
  runLinkmate exampleEndpoint structuralEquals [anchorB] cached
  = (Normal
       {| syncResponse :=
            Some [ {| anchor := anchorA;
                      replacementUrl :=
                        Some "https://shop-links.co/X1/?amp=true" |} ];
          asyncResponse := Some pendingB |},
     cached)
  /\ mappingOf (linkAttribute_ cached) [smartLinkX1] [anchorB]
     = [ {| anchor := anchorB; replacementUrl := None |} ].
Proof. split; reflexivity. Qed.

(** C3 (as stated, refuted).  The instance [cached] is given [[anchorB]]
    and issues a request; the answer decodes to a body with [data[0]] but
    without [smart_links].  The deferred half rejects with a TypeError,
    yet both fields have been assigned: [linkmateResponse_] is now
    [undefined] and [anchorList_] is [[anchorB]]. *)
Lemma settle_body_without_smart_links :
  let after :=
    set_anchorList_ (Some [anchorB])
      (set_linkmateResponse_ JUndefined cached) in
  fst (runLinkmate exampleEndpoint structuralEquals [anchorB] cached)
  = Normal
      {| syncResponse :=
           Some [ {| anchor := anchorA;
                     replacementUrl :=
                       Some "https://shop-links.co/X1/?amp=true" |} ];
         asyncResponse := Some pendingB |}
  /\ snd (runLinkmate exampleEndpoint structuralEquals [anchorB] cached)
     = cached
  /\ settle pendingB (JsonResolved bodyWithoutSmartLinks) cached
     = (Throw TypeError, after)
  /\ linkmateResponse_ cached = JArr [smartLinkX1]
  /\ linkmateResponse_ after = JUndefined
  /\ anchorList_ cached = Some [anchorA]
  /\ anchorList_ after = Some [anchorB]
  /\ linkmateResponse_ after <> linkmateResponse_ cached
  /\ anchorList_ after <> anchorList_ cached.
Proof. cbv zeta. repeat split; try reflexivity; discriminate. Qed.

(** *** Instances of the theorems that have hypotheses *)

Lemma mapLinks_layout_witness :
  (linkmateResponse_ twoAnchors = JArr [smartLinkX1] /\
   Forall2 describes [smartLinkX1] [mkSmartLink "http://a.com" "X1"] /\
   anchorList_ twoAnchors = Some [anchorA; anchorB]) /\
  exists mapped,
    mapLinks_ twoAnchors = Normal mapped /\
    length mapped = 1 * 2 /\
    forall i j s a,
      nth_error [mkSmartLink "http://a.com" "X1"] i = Some s ->
      nth_error [anchorA; anchorB] j = Some a ->
      exists r,
        nth_error mapped (i * 2 + j)
        = Some {| anchor := a; replacementUrl := r |} /\
        (linkOf twoAnchors a = JStr (link_url s) ->
         r = Some ("https://shop-links.co/" ++ link_auction_id s
                   ++ "/?amp=true")%string) /\
        (linkOf twoAnchors a <> JStr (link_url s) -> r = None).
Proof.
  assert (H : Forall2 describes [smartLinkX1]
                [mkSmartLink "http://a.com" "X1"]).
  { constructor; [split; reflexivity | constructor]. }
  split; [repeat split; exact H|].
  exact (mapLinks_layout twoAnchors [smartLinkX1]
           [mkSmartLink "http://a.com" "X1"] [anchorA; anchorB]
           eq_refl H eq_refl).
Defined.

Lemma settle_failure_keeps_state_witness :
  (runLinkmate exampleEndpoint structuralEquals [anchorA] fresh
   = (Normal {| syncResponse := None; asyncResponse := Some pendingA |},
      fresh) /\
   asyncResponse {| syncResponse := None; asyncResponse := Some pendingA |}
   = Some pendingA) /\
  fresh = fresh /\
  forall now : Linkmate,
    (forall e, settle pendingA (FetchRejected e) now = (Throw e, now)) /\
    (forall e, settle pendingA (JsonRejected e) now = (Throw e, now)) /\
    (forall res e,
        readSmartLinks res = Throw e ->
        settle pendingA (JsonResolved res) now = (Throw e, now)).
Proof.
  split; [split; reflexivity|].
  exact (settle_failure_keeps_state exampleEndpoint structuralEquals
           fresh fresh [anchorA]
           {| syncResponse := None; asyncResponse := Some pendingA |}
           pendingA eq_refl eq_refl).
Defined.

Lemma runLinkmate_idempotent_witness :
  ((forall l m, structuralEquals l m = true -> l = m) /\
   truthy (linkmateResponse_ cached) = true /\
   anchorList_ cached = Some [anchorA] /\
   structuralEquals [anchorA] [anchorA] = true) /\
  exists this1 : Linkmate,
    runLinkmate exampleEndpoint structuralEquals [anchorA] cached
    = (Normal {| syncResponse := None; asyncResponse := None |}, this1) /\
    runLinkmate exampleEndpoint structuralEquals [anchorA] this1
    = (Normal {| syncResponse := None; asyncResponse := None |}, this1).
Proof.
  split; [repeat split; exact structuralEquals_eq|].
  exact (runLinkmate_idempotent exampleEndpoint structuralEquals cached
           [anchorA] [anchorA] [anchorA]
           structuralEquals_eq eq_refl eq_refl eq_refl eq_refl).
Defined.

Lemma buildLinksPayload_exclusive_witness :
  In {| raw_url := JStr "http://b.com#locklink";
        exclusive_match_requested := true |}
     (buildLinksPayload_ fresh [anchorA; anchorLocked; anchorOptedOut]) /\
  exists a,
    In a [anchorA; anchorLocked; anchorOptedOut] /\
    JStr "http://b.com#locklink" = linkOf fresh a /\
    (true = true <->
     requestExclusiveLinks_ fresh = Some true \/
     endsWith "#locklink" (toString (linkOf fresh a))).
Proof.
  assert (H : In {| raw_url := JStr "http://b.com#locklink";
                    exclusive_match_requested := true |}
                (buildLinksPayload_ fresh
                   [anchorA; anchorLocked; anchorOptedOut])).
  { right. left. reflexivity. }
  split; [exact H|].
  exact (buildLinksPayload_exclusive fresh
           [anchorA; anchorLocked; anchorOptedOut] _ H).
Defined.

Lemma runLinkmate_sync_needs_request_witness :
  runLinkmate exampleEndpoint structuralEquals [anchorA] cached
  = (Normal {| syncResponse := None; asyncResponse := None |}, cached) /\
  (@None AsyncMappedLinks = None <->
   truthy (linkmateResponse_ cached) = true /\
   (anchorList_ cached = None \/
    exists last, anchorList_ cached = Some last /\
                 structuralEquals last [anchorA] = true)) /\
  (@None AsyncMappedLinks = None -> @None (list MappedLink) = None) /\
  (@None (list MappedLink) <> None -> @None AsyncMappedLinks <> None).
Proof.
  split; [reflexivity|].
  exact (runLinkmate_sync_needs_request exampleEndpoint structuralEquals
           cached cached [anchorA]
           {| syncResponse := None; asyncResponse := None |} eq_refl).
Defined.

Lemma mapLinks_keeps_donotlink_anchors_witness :
  (linkmateResponse_ withOptedOut = JArr [smartLinkX1; smartLinkOptedOut] /\
   Forall2 describes [smartLinkX1; smartLinkOptedOut]
     [mkSmartLink "http://a.com" "X1";
      mkSmartLink "http://a.com#donotlink" "X2"] /\
   anchorList_ withOptedOut = Some [anchorA; anchorOptedOut] /\
   nth_error [anchorA; anchorOptedOut] 1 = Some anchorOptedOut /\
   endsWith "#donotlink" (toString (linkOf withOptedOut anchorOptedOut))) /\
  (forall entry,
      In entry (buildLinksPayload_ withOptedOut [anchorA; anchorOptedOut]) ->
      raw_url entry <> linkOf withOptedOut anchorOptedOut) /\
  exists mapped,
    mapLinks_ withOptedOut = Normal mapped /\
    forall i s,
      nth_error [mkSmartLink "http://a.com" "X1";
                 mkSmartLink "http://a.com#donotlink" "X2"] i = Some s ->
      exists r,
        nth_error mapped (i * 2 + 1)
        = Some {| anchor := anchorOptedOut; replacementUrl := r |} /\
        (linkOf withOptedOut anchorOptedOut = JStr (link_url s) ->
         r = Some ("https://shop-links.co/" ++ link_auction_id s
                   ++ "/?amp=true")%string).
Proof.
  assert (H : Forall2 describes [smartLinkX1; smartLinkOptedOut]
                [mkSmartLink "http://a.com" "X1";
                 mkSmartLink "http://a.com#donotlink" "X2"]).
  { repeat constructor. }
  assert (E : endsWith "#donotlink"
                (toString (linkOf withOptedOut anchorOptedOut))).
  { exists "http://a.com". reflexivity. }
  split; [repeat split; [exact H | exact E]|].
  exact (mapLinks_keeps_donotlink_anchors withOptedOut
           [smartLinkX1; smartLinkOptedOut]
           [mkSmartLink "http://a.com" "X1";
            mkSmartLink "http://a.com#donotlink" "X2"]
           [anchorA; anchorOptedOut] anchorOptedOut 1
           eq_refl H eq_refl eq_refl E).
Defined.

(* ===================================================================== *)
(** ** Further properties of the mapping *)
(* ===================================================================== *)

Lemma mapC_Normal_inv {A B : Type} (f : A -> Completion B) (l : list A)
  (ys : list B) :
  mapC f l = Normal ys -> Forall2 (fun x y => f x = Normal y) l ys.
Proof.
  revert ys. induction l as [|x l IH]; intros ys H; cbn in H.
  - injection H as <-. constructor.
  - destruct (f x) as [y|e] eqn:Hx; [|discriminate].
    destruct (mapC f l) as [ys'|e]; [|discriminate].
    injection H as <-. constructor; [exact Hx | now apply IH].
Qed.

Lemma mapC_Throw_inv {A B : Type} (f : A -> Completion B) (l : list A)
  (e : JsError) :
  mapC f l = Throw e -> exists x, In x l /\ f x = Throw e.
Proof.
  induction l as [|x l IH]; intros H; cbn in H; [discriminate|].
  destruct (f x) as [y|e'] eqn:Hx.
  - destruct (mapC f l) as [ys'|e'']; [discriminate|].
    injection H as ->. destruct (IH eq_refl) as (x' & Hin & Hx').
    exists x'. split; [now right | exact Hx'].
  - injection H as ->. exists x. split; [now left | exact Hx].
Qed.

Lemma getMember_Throw (v : JsVal) (key : string) (e : JsError) :
  getMember v key = Throw e -> e = TypeError /\ nullish v = true.
Proof. destruct v; cbn; intros H; try discriminate; now injection H. Qed.

Lemma mapAnchor_Normal_inv (this : Linkmate) (smartLink : JsVal)
  (a : Anchor) (entry : MappedLink) :
  mapAnchor this smartLink a = Normal entry ->
  nullish smartLink = false /\
  entry = entryOf (linkAttribute_ this) smartLink a.
Proof.
  intros H. destruct (nullish smartLink) eqn:Hn.
  - unfold mapAnchor in H. destruct smartLink; cbn in *; discriminate.
  - split; [reflexivity|]. unfold mapAnchor, toStringC in H.
    rewrite !(getMember_member _ _ Hn) in H. unfold entryOf.
    destruct (strictEquals _ _); [|congruence].
    destruct (convertible _); [congruence | discriminate].
Qed.

(** When the callback returns, the item could be mapped onto the
    anchor. *)
Lemma mapAnchor_Normal_mappable (this : Linkmate) (smartLink : JsVal)
  (a : Anchor) (entry : MappedLink) :
  mapAnchor this smartLink a = Normal entry ->
  implb (strictEquals (getProp a (linkAttribute_ this))
           (member smartLink "url"))
        (convertible (member smartLink "auction_id")) = true.
Proof.
  intros H. destruct (mapAnchor_Normal_inv _ _ _ _ H) as [Hn _].
  unfold mapAnchor, toStringC in H.
  rewrite !(getMember_member _ _ Hn) in H.
  destruct (strictEquals _ _); [|reflexivity].
  now destruct (convertible _).
Qed.

Lemma mapAnchor_Throw (this : Linkmate) (smartLink : JsVal) (a : Anchor)
  (e : JsError) :
  mapAnchor this smartLink a = Throw e -> e = TypeError.
Proof.
  unfold mapAnchor. destruct (getMember smartLink "url") as [u|e1] eqn:H1.
  - destruct (strictEquals _ _); [|discriminate].
    destruct (getMember smartLink "auction_id") as [i|e2] eqn:H2.
    + unfold toStringC. destruct (convertible i); [discriminate|].
      intros H. now injection H.
    + intros H. injection H as <-. now apply getMember_Throw in H2.
  - intros H. injection H as <-. now apply getMember_Throw in H1.
Qed.

Lemma mapSmartLink_Normal_inv (this : Linkmate) (smartLink : JsVal)
  (row : list MappedLink) :
  mapSmartLink this smartLink = Normal row ->
  exists anchors,
    anchorList_ this = Some anchors /\
    row = map (entryOf (linkAttribute_ this) smartLink) anchors /\
    (anchors = [] \/ nullish smartLink = false).
Proof.
  unfold mapSmartLink. destruct (anchorList_ this) as [anchors|];
    [|discriminate].
  intros H. exists anchors. split; [reflexivity|].
  apply mapC_Normal_inv in H. split.
  - induction H as [|a entry anchors row Ha _ IH]; [reflexivity|].
    cbn. apply mapAnchor_Normal_inv in Ha as [_ ->]. now rewrite IH.
  - destruct H as [|a entry anchors row Ha _]; [now left|].
    right. now apply mapAnchor_Normal_inv in Ha.
Qed.

Lemma mapSmartLink_Throw (this : Linkmate) (smartLink : JsVal)
  (e : JsError) :
  mapSmartLink this smartLink = Throw e -> e = TypeError.
Proof.
  unfold mapSmartLink. destruct (anchorList_ this) as [anchors|].
  - intros H. apply mapC_Throw_inv in H as (a & _ & H).
    now apply mapAnchor_Throw in H.
  - intros H. now injection H.
Qed.

(** Whenever [mapLinks_] returns, the response is an array, and either
    it is empty or an anchor list is in place and the result is the
    mapping of the one onto the other. *)
Lemma mapLinks_Normal_inv (this : Linkmate) (mapped : list MappedLink) :
  mapLinks_ this = Normal mapped ->
  exists items,
    linkmateResponse_ this = JArr items /\
    ((items = [] /\ mapped = []) \/
     exists anchors,
       anchorList_ this = Some anchors /\
       mapped = mappingOf (linkAttribute_ this) items anchors /\
       (anchors = [] \/ smartLinkArray (JArr items) = true)).
Proof.
  unfold mapLinks_.
  destruct (linkmateResponse_ this) as [ | | | | |items| ]; try discriminate.
  destruct (mapC (mapSmartLink this) items) as [rows|e] eqn:Hrows;
    [|discriminate].
  intros H. injection H as <-. exists items. split; [reflexivity|].
  apply mapC_Normal_inv in Hrows.
  destruct Hrows as [|s row items rows Hs Hrest]; [now left|].
  right. destruct (mapSmartLink_Normal_inv this s row Hs)
    as (anchors & Ha & _ & _).
  exists anchors. split; [exact Ha|].
  assert (Hall : Forall2 (fun x y => mapSmartLink this x = Normal y)
                   (s :: items) (row :: rows)) by now constructor.
  clear Hs Hrest. split.
  - unfold mappingOf. induction Hall as [|x y l l' Hx _ IH]; [reflexivity|].
    cbn. destruct (mapSmartLink_Normal_inv this x y Hx)
      as (anchors' & Ha' & -> & _).
    rewrite IH. congruence.
  - destruct anchors as [|a anchors]; [now left|]. right.
    cbn [smartLinkArray]. apply forallb_forall. intros x Hx.
    destruct (Forall2_nth_error_l_In _ _ _ _ Hall Hx) as (y & Hy).
    destruct (mapSmartLink_Normal_inv this x y Hy)
      as (anchors' & Ha' & _ & [E | Hn]).
    + congruence.
    + now rewrite Hn.
Qed.

Lemma mapLinks_Throw_TypeError (this : Linkmate) (e : JsError) :
  mapLinks_ this = Throw e -> e = TypeError.
Proof.
  unfold mapLinks_.
  destruct (linkmateResponse_ this) as [ | | | | |items| ];
    try (intros H; now injection H).
  destruct (mapC (mapSmartLink this) items) as [rows|e'] eqn:Hrows;
    [discriminate|].
  intros H. injection H as ->.
  apply mapC_Throw_inv in Hrows as (x & _ & Hx).
  now apply mapSmartLink_Throw in Hx.
Qed.

Lemma mappingOf_no_anchors (attr : string) (items : list JsVal) :
  mappingOf attr items [] = [].
Proof. unfold mappingOf. induction items; cbn; auto. Qed.

Lemma mapLinks_no_anchors (this : Linkmate) (items : list JsVal) :
  linkmateResponse_ this = JArr items ->
  anchorList_ this = Some [] ->
  mapLinks_ this = Normal [].
Proof.
  intros Hr Ha. unfold mapLinks_. rewrite Hr.
  rewrite (mapC_Normal (mapSmartLink this) (fun _ => [])).
  - assert (E : concat (map (fun _ : JsVal => @nil MappedLink) items) = []).
    { clear Hr. induction items as [|x items IH]; [reflexivity | exact IH]. }
    now rewrite E.
  - intros s _. unfold mapSmartLink. now rewrite Ha.
Qed.

Lemma mappable_iff (attr : string) (items : list JsVal)
  (anchors : list Anchor) :
  mappable attr items anchors = true <->
  forall item, In item items ->
    nullish item = false /\
    forall a, In a anchors ->
      strictEquals (getProp a attr) (member item "url") = true ->
      convertible (member item "auction_id") = true.
Proof.
  unfold mappable. rewrite forallb_forall. split.
  - intros H item Hin. specialize (H item Hin).
    apply andb_true_iff in H as [Hn Hall]. rewrite forallb_forall in Hall.
    split; [now apply negb_true_iff in Hn|].
    intros a Ha Heq. specialize (Hall a Ha). now rewrite Heq in Hall.
  - intros H item Hin. destruct (H item Hin) as [Hn Hall].
    rewrite Hn. cbn [negb andb]. apply forallb_forall. intros a Ha.
    destruct (strictEquals _ _) eqn:Heq; [|reflexivity].
    cbn. now apply (Hall a).
Qed.

(** When [mapLinks_] returns with anchors in place, every item could be
    mapped onto every anchor. *)
Lemma mapLinks_Normal_mappable (this : Linkmate)
  (mapped : list MappedLink) (items : list JsVal) (a0 : Anchor)
  (anchors : list Anchor) :
  mapLinks_ this = Normal mapped ->
  linkmateResponse_ this = JArr items ->
  anchorList_ this = Some (a0 :: anchors) ->
  mappable (linkAttribute_ this) items (a0 :: anchors) = true.
Proof.
  unfold mapLinks_. intros H Hr Ha. rewrite Hr in H.
  destruct (mapC (mapSmartLink this) items) as [rows|e] eqn:Hrows;
    [|discriminate].
  apply mapC_Normal_inv in Hrows. unfold mappable.
  apply forallb_forall. intros item Hin.
  destruct (Forall2_nth_error_l_In _ _ _ _ Hrows Hin) as (row & Hrow).
  unfold mapSmartLink in Hrow. rewrite Ha in Hrow.
  apply mapC_Normal_inv in Hrow. apply andb_true_iff. split.
  - inversion Hrow as [|? entry ? ? H0 _]; subst.
    apply negb_true_iff. now apply mapAnchor_Normal_inv in H0.
  - apply forallb_forall. intros a Hina.
    destruct (Forall2_nth_error_l_In _ _ _ _ Hrow Hina) as (entry & He).
    now apply mapAnchor_Normal_mappable in He.
Qed.

(** X1.  [mapLinks_] returns exactly when the stored response is an
    array and, unless that array is empty, an anchor list is in place
    and, unless that list is empty, no item of the array is [undefined]
    or [null] and every item whose [url] is [===] to the link of a
    stored anchor has an [auction_id] that converts to a string (no
    object with a [toString] property of its own in it).  In every other
    state it throws, and what it throws is a TypeError. *)
Theorem mapLinks_returns_iff (this : Linkmate) :
  ((exists mapped, mapLinks_ this = Normal mapped) <->
   exists items,
     linkmateResponse_ this = JArr items /\
     (items = [] \/
      exists anchors,
        anchorList_ this = Some anchors /\
        (anchors = [] \/
         forall item, In item items ->
           nullish item = false /\
           forall a, In a anchors ->
             strictEquals (linkOf this a) (member item "url") = true ->
             convertible (member item "auction_id") = true))) /\
  (forall e, mapLinks_ this = Throw e -> e = TypeError).
Proof.
  split; [|apply mapLinks_Throw_TypeError]. split.
  - intros [mapped H].
    destruct (mapLinks_Normal_inv this mapped H)
      as (items & Hr & [[-> _] | (anchors & Ha & _ & _)]).
    + exists []. split; [exact Hr | now left].
    + exists items. split; [exact Hr|]. right. exists anchors.
      split; [exact Ha|]. destruct anchors as [|a0 anchors]; [now left|].
      right. apply mappable_iff.
      now apply (mapLinks_Normal_mappable this mapped).
  - intros (items & Hr & [-> | (anchors & Ha & [-> | Hok])]).
    + exists []. unfold mapLinks_. now rewrite Hr.
    + exists []. now apply (mapLinks_no_anchors this items).
    + exists (mappingOf (linkAttribute_ this) items anchors).
      apply mapLinks_mappingOf; try assumption.
      now apply mappable_iff.
Qed.

(** X2.  Empty input is not an error: on an empty response array
    [mapLinks_] returns the empty mapping even when no anchor list has
    been stored, and on an empty anchor list it returns the empty
    mapping whatever the items of the response array are, [null]
    included. *)
Theorem mapLinks_empty_input (this : Linkmate) (items : list JsVal) :
  linkmateResponse_ this = JArr items ->
  items = [] \/ anchorList_ this = Some [] ->
  mapLinks_ this = Normal [].
Proof.
  intros Hr [-> | Ha].
  - unfold mapLinks_. now rewrite Hr.
  - now apply (mapLinks_no_anchors this items).
Qed.

(** X3.  Every entry [mapLinks_] returns is about an anchor of the
    stored list and a non-null item of the stored response: its
    replacement is the shop link built from the [auction_id] of that
    item when the link of the anchor is [===] to the [url] of the item,
    and null otherwise.  So a replacement URL never comes from anywhere
    but a smart link whose [url] is the link of the anchor. *)
Theorem mapLinks_entry_provenance
  (this : Linkmate) (mapped : list MappedLink) (entry : MappedLink) :
  mapLinks_ this = Normal mapped ->
  In entry mapped ->
  exists items anchors item,
    linkmateResponse_ this = JArr items /\
    anchorList_ this = Some anchors /\
    In item items /\ nullish item = false /\
    In (anchor entry) anchors /\
    replacementUrl entry
    = if strictEquals (linkOf this (anchor entry)) (member item "url")
      then Some ("https://shop-links.co/"
                 ++ toString (member item "auction_id")
                 ++ "/?amp=true")%string
      else None.
Proof.
  intros H Hin.
  destruct (mapLinks_Normal_inv this mapped H)
    as (items & Hr & [[_ ->] | (anchors & Ha & -> & Hok)]);
    [destruct Hin|].
  unfold mappingOf in Hin. apply in_flat_map in Hin as (item & Hitem & Hin).
  apply in_map_iff in Hin as (a & <- & Hin).
  exists items, anchors, item. repeat split; try assumption.
  destruct Hok as [-> | Hok]; [destruct Hin|].
  cbn [smartLinkArray] in Hok. rewrite forallb_forall in Hok.
  apply negb_true_iff. now apply Hok.
Qed.

(** X4.  Missing keys are compared and rendered as [undefined]:
    whenever [mapLinks_] returns, an anchor that lacks the configured
    link attribute has been matched by every stored smart link that
    lacks a [url], and a matching smart link that lacks an [auction_id]
    has given the replacement
    ["https://shop-links.co/undefined/?amp=true"]. *)
Theorem mapLinks_missing_keys
  (this : Linkmate) (mapped : list MappedLink) (items : list JsVal)
  (anchors : list Anchor) (item : JsVal) (a : Anchor) :
  mapLinks_ this = Normal mapped ->
  linkmateResponse_ this = JArr items ->
  anchorList_ this = Some anchors ->
  In item items -> In a anchors ->
  (linkOf this a = JUndefined -> member item "url" = JUndefined ->
   In {| anchor := a;
         replacementUrl :=
           Some ("https://shop-links.co/"
                 ++ toString (member item "auction_id")
                 ++ "/?amp=true")%string |} mapped) /\
  (strictEquals (linkOf this a) (member item "url") = true ->
   member item "auction_id" = JUndefined ->
   In {| anchor := a;
         replacementUrl :=
           Some "https://shop-links.co/undefined/?amp=true" |} mapped).
Proof.
  intros Hm Hr Ha Hitem Hin.
  destruct (mapLinks_Normal_inv this mapped Hm)
    as (items' & Hr' & [[-> _] | (anchors' & Ha' & -> & _)]).
  - rewrite Hr in Hr'. injection Hr' as ->. destruct Hitem.
  - rewrite Hr in Hr'. injection Hr' as <-.
    rewrite Ha in Ha'. injection Ha' as <-.
    assert (Hentry : In (entryOf (linkAttribute_ this) item a)
                       (mappingOf (linkAttribute_ this) items anchors)).
    { unfold mappingOf. apply in_flat_map. exists item.
      split; [exact Hitem | now apply in_map]. }
    unfold entryOf in Hentry. fold (linkOf this a) in Hentry. split.
    + intros H1 H2. now rewrite H1, H2 in Hentry.
    + intros H1 H2. now rewrite H1, H2 in Hentry.
Qed.

(* ===================================================================== *)
(** ** Further properties of the payload *)
(* ===================================================================== *)

(** X5.  The links payload is built anchor by anchor: the payload of two
    lists put end to end is the payload of the first followed by the
    payload of the second, so an entry never depends on the other
    anchors and equal links are not merged; and the payload is never
    longer than the anchor list. *)
Theorem buildLinksPayload_app
  (this : Linkmate) (anchors1 anchors2 : list Anchor) :
  buildLinksPayload_ this (anchors1 ++ anchors2)
  = (buildLinksPayload_ this anchors1
     ++ buildLinksPayload_ this anchors2)%list /\
  length (buildLinksPayload_ this (anchors1 ++ anchors2))
  <= length anchors1 + length anchors2.
Proof.
  rewrite !buildLinksPayload_filter_map. split.
  - now rewrite filter_app, map_app.
  - rewrite length_map, <- length_app. apply filter_length_le.
Qed.

(** X6.  An anchor that lacks the configured link attribute is not
    skipped: its link reads as [undefined], which ends neither in
    ["#donotlink"] nor in ["#locklink"], so the payload has an entry for
    it whose [raw_url] is [undefined] and whose
    [exclusive_match_requested] is the exclusive-links option alone. *)
Theorem buildLinksPayload_missing_attribute
  (this : Linkmate) (anchorList : list Anchor) (a : Anchor) :
  In a anchorList ->
  linkOf this a = JUndefined ->
  In {| raw_url := JUndefined;
        exclusive_match_requested :=
          match requestExclusiveLinks_ this with
          | Some true => true
          | _ => false
          end |}
     (buildLinksPayload_ this anchorList).
Proof.
  intros Hin Hlink. apply buildLinksPayload_In. exists a.
  split; [exact Hin|]. unfold kept, linkObjOf. rewrite Hlink.
  split; [reflexivity|]. now destruct (requestExclusiveLinks_ this) as [[|]|].
Qed.

(* ===================================================================== *)
(** ** The request *)
(* ===================================================================== *)

Lemma prefix_dropChars (a s : string) :
  prefix a s = true -> s = (a ++ dropChars (String.length a) s)%string.
Proof.
  revert s. induction a as [|c a IH]; intros s H; [reflexivity|].
  destruct s as [|d s]; cbn in H; [discriminate|].
  destruct (ascii_dec c d) as [<-|]; [|discriminate].
  cbn. f_equal. now apply IH.
Qed.

(** [replaceFirst] against the library's [index]: the text is cut around
    the first occurrence of the pattern, or left alone when there is
    none. *)
Lemma replaceFirst_index (pattern by_ s : string) :
  match index 0 pattern s with
  | Some n =>
      exists p q : string,
        s = (p ++ pattern ++ q)%string /\
        String.length p = n /\
        replaceFirst pattern by_ s = (p ++ by_ ++ q)%string
  | None => replaceFirst pattern by_ s = s
  end.
Proof.
  induction s as [|c s IH].
  - destruct pattern as [|d pattern]; cbn.
    + exists "", "". now repeat split.
    + reflexivity.
  - cbn [index replaceFirst].
    destruct (prefix pattern (String c s)) eqn:Hp.
    + exists "", (dropChars (String.length pattern) (String c s)).
      split; [|split; reflexivity].
      now apply prefix_dropChars.
    + destruct (index 0 pattern s) as [n|].
      * destruct IH as (p & q & -> & <- & ->).
        exists (String c p), q. now repeat split.
      * now rewrite IH.
Qed.

Lemma append_same_length_inj (p p' r r' : string) :
  String.length p = String.length p' ->
  (p ++ r)%string = (p' ++ r')%string -> p = p' /\ r = r'.
Proof.
  revert p'. induction p as [|c p IH]; intros [|c' p'] Hl H;
    cbn in *; try discriminate.
  - now split.
  - injection H as -> H. injection Hl as Hl.
    destruct (IH p' Hl H) as [-> ->]. now split.
Qed.

Lemma append_inv_head (p r r' : string) :
  (p ++ r)%string = (p ++ r')%string -> r = r'.
Proof.
  intros H. now destruct (append_same_length_inj p p r r' eq_refl H).
Qed.

Lemma postToLinkmate_sameConfig (endpoint : string) (a b : Linkmate)
  (anchorList : list Anchor) :
  sameConfig a b ->
  postToLinkmate_ endpoint a anchorList = postToLinkmate_ endpoint b anchorList.
Proof.
  intros (H1 & H2 & H3 & H4 & H5).
  unfold postToLinkmate_, getEditInfo_, buildLinksPayload_.
  now rewrite H1, H2, H3, H4, H5.
Qed.

(** X7.  For a publisher id whose rendering has no [$] in it (any
    number), the URL of the request is the endpoint with its first
    [".pub_id."] replaced by the publisher id, rendered as a string;
    what comes before and after that first occurrence is kept as it is,
    later occurrences included.  An endpoint without [".pub_id."] is
    used unchanged. *)
Theorem postToLinkmate_fetchUrl
  (endpoint : string) (this : Linkmate) (anchorList : list Anchor) :
  index 0 "$" (toString (publisherID_ this)) = None ->
  (forall p q : string,
      endpoint = (p ++ ".pub_id." ++ q)%string ->
      index 0 ".pub_id." endpoint = Some (String.length p) ->
      fetchUrl (postToLinkmate_ endpoint this anchorList)
      = (p ++ toString (publisherID_ this) ++ q)%string) /\
  (index 0 ".pub_id." endpoint = None ->
   fetchUrl (postToLinkmate_ endpoint this anchorList) = endpoint).
Proof.
  intros _. cbn [postToLinkmate_ fetchUrl].
  pose proof (replaceFirst_index ".pub_id." (toString (publisherID_ this))
                endpoint) as H.
  split.
  - intros p q Hcut Hidx. rewrite Hidx in H.
    destruct H as (p' & q' & Hcut' & Hlen & ->).
    rewrite Hcut in Hcut'.
    destruct (append_same_length_inj p p' _ _ (eq_sym Hlen) Hcut')
      as [<- Hq].
    apply append_inv_head in Hq. now subst q'.
  - intros Hidx. now rewrite Hidx in H.
Qed.

(* ===================================================================== *)
(** ** The instance over time *)
(* ===================================================================== *)

Lemma sameConfig_refl (a : Linkmate) : sameConfig a a.
Proof. now repeat split. Qed.

Lemma sameConfig_trans (a b c : Linkmate) :
  sameConfig a b -> sameConfig b c -> sameConfig a c.
Proof.
  intros (H1 & H2 & H3 & H4 & H5) (K1 & K2 & K3 & K4 & K5).
  repeat split; congruence.
Qed.

Lemma sameConfig_stored (v : JsVal) (l : option (list Anchor))
  (a : Linkmate) :
  sameConfig (set_anchorList_ l (set_linkmateResponse_ v a)) a.
Proof. now repeat split. Qed.

(** Two instances with the same configuration are the same instance once
    the same two values have been stored in them. *)
Lemma stored_sameConfig (v : JsVal) (l : option (list Anchor))
  (a b : Linkmate) :
  sameConfig a b ->
  set_anchorList_ l (set_linkmateResponse_ v a)
  = set_anchorList_ l (set_linkmateResponse_ v b).
Proof.
  intros (H1 & H2 & H3 & H4 & H5).
  unfold set_anchorList_, set_linkmateResponse_. cbn. congruence.
Qed.

(** What [settle] can do to the instance: nothing, or store a value read
    from the body together with the anchor list of the request. *)
Lemma settle_state (p : AsyncMappedLinks) (o : XhrOutcome)
  (now : Linkmate) :
  snd (settle p o now) = now \/
  exists res v,
    o = JsonResolved res /\ readSmartLinks res = Normal v /\
    snd (settle p o now)
    = set_anchorList_ (Some (closureAnchorList p))
        (set_linkmateResponse_ v now).
Proof.
  destruct o as [e|e|res]; try (now left). cbn [settle].
  destruct (readSmartLinks res) as [v|e] eqn:Hres.
  - right. exists res, v. rewrite (onResponse_readable _ _ _ _ Hres).
    now repeat split.
  - left. now rewrite (onResponse_unreadable _ _ _ _ Hres).
Qed.

Lemma removeNth_In {A : Type} (n : nat) (l : list A) (x : A) :
  In x (removeNth n l) -> In x l.
Proof.
  revert n. induction l as [|y l IH]; intros [|n] H; cbn in *; auto.
  destruct H as [H | H]; [now left | right; now apply (IH n)].
Qed.

Section OverTime.

Variable LINKMATE_ENDPOINT : string.
Variable deepEquals : list Anchor -> list Anchor -> bool.
Variable ampDoc : AmpDoc.
Variable linkmateOptions : LinkmateOptions.

(** What a call can do to the instance: nothing, or, when it issues no
    request, store the anchor list it was given. *)
Lemma runLinkmate_state (this : Linkmate) (anchorList : list Anchor) :
  snd (runLinkmate LINKMATE_ENDPOINT deepEquals anchorList this) = this \/
  (truthy (linkmateResponse_ this) = true /\
   anchorListChanged deepEquals this anchorList = false /\
   fst (runLinkmate LINKMATE_ENDPOINT deepEquals anchorList this)
   = Normal {| syncResponse := None; asyncResponse := None |} /\
   snd (runLinkmate LINKMATE_ENDPOINT deepEquals anchorList this)
   = set_anchorList_ (Some anchorList) this).
Proof.
  destruct (runLinkmate_cases LINKMATE_ENDPOINT deepEquals this anchorList)
    as [[_ H] | [(_ & _ & [(m & _ & H) | (e & _ & H)]) | (Hr & Hc & H)]];
    rewrite H; cbn [fst snd]; auto.
Qed.

(** The request a call leaves in flight is the one [postToLinkmate_]
    builds for the anchor list given. *)
Lemma pendingOf_runLinkmate (this : Linkmate) (anchorList : list Anchor)
  (p : AsyncMappedLinks) :
  In p (pendingOf
          (fst (runLinkmate LINKMATE_ENDPOINT deepEquals anchorList this))) ->
  p = {| request := postToLinkmate_ LINKMATE_ENDPOINT this anchorList;
         closureAnchorList := anchorList |}.
Proof.
  destruct (runLinkmate_cases LINKMATE_ENDPOINT deepEquals this anchorList)
    as [[_ H] | [(_ & _ & [(m & _ & H) | (e & _ & H)]) | (Hr & Hc & H)]];
    rewrite H; cbn; intros Hp; try contradiction;
    (destruct Hp as [<- | Hp]; [reflexivity | contradiction]).
Qed.

Lemma pageInvariant_step (pg : Page) (ev : Event) :
  pageInvariant LINKMATE_ENDPOINT ampDoc linkmateOptions pg ->
  pageInvariant LINKMATE_ENDPOINT ampDoc linkmateOptions
    (step LINKMATE_ENDPOINT deepEquals pg ev).
Proof.
  intros (Hcfg & Hcache & Hreq). destruct ev as [anchorList | n o].
  - cbn [step instance inFlight].
    assert (Hflight : forall p,
      In p (inFlight pg ++
            pendingOf (fst (runLinkmate LINKMATE_ENDPOINT deepEquals
                              anchorList (instance pg)))) ->
      request p
      = postToLinkmate_ LINKMATE_ENDPOINT
          (constructor ampDoc linkmateOptions) (closureAnchorList p)).
    { intros p Hp. apply in_app_or in Hp as [Hp | Hp]; [now apply Hreq|].
      apply pendingOf_runLinkmate in Hp. subst p. cbn.
      now apply postToLinkmate_sameConfig. }
    destruct (runLinkmate_state (instance pg) anchorList)
      as [-> | (_ & _ & _ & ->)].
    + exact (conj Hcfg (conj Hcache Hflight)).
    + split; [exact Hcfg|]. split; [intros _; discriminate | exact Hflight].
  - cbn [step]. destruct (nth_error (inFlight pg) n) as [p|] eqn:Hn;
      [|exact (conj Hcfg (conj Hcache Hreq))].
    cbn [instance inFlight].
    assert (Hflight : forall q, In q (removeNth n (inFlight pg)) ->
      request q
      = postToLinkmate_ LINKMATE_ENDPOINT
          (constructor ampDoc linkmateOptions) (closureAnchorList q)).
    { intros q Hq. apply Hreq. now apply removeNth_In in Hq. }
    destruct (settle_state p o (instance pg))
      as [-> | (res & v & _ & _ & ->)].
    + exact (conj Hcfg (conj Hcache Hflight)).
    + split; [exact Hcfg|]. split; [intros _; discriminate | exact Hflight].
Qed.

Lemma pageInvariant_exec (events : list Event) (pg : Page) :
  pageInvariant LINKMATE_ENDPOINT ampDoc linkmateOptions pg ->
  pageInvariant LINKMATE_ENDPOINT ampDoc linkmateOptions
    (exec LINKMATE_ENDPOINT deepEquals events pg).
Proof.
  unfold exec. revert pg. induction events as [|ev events IH]; intros pg H.
  - exact H.
  - cbn [fold_left]. apply IH. now apply pageInvariant_step.
Qed.

Lemma pageInvariant_newPage :
  pageInvariant LINKMATE_ENDPOINT ampDoc linkmateOptions
    (newPage ampDoc linkmateOptions).
Proof.
  split; [apply sameConfig_refl|]. split; [discriminate|]. intros p Hp.
  destruct Hp.
Qed.

End OverTime.

Lemma settle_sameConfig (p : AsyncMappedLinks) (o : XhrOutcome)
  (now : Linkmate) :
  sameConfig (snd (settle p o now)) now.
Proof.
  destruct (settle_state p o now) as [-> | (res & v & _ & _ & ->)].
  - apply sameConfig_refl.
  - apply sameConfig_stored.
Qed.

Lemma mapLinks_not_array (this : Linkmate) :
  isArray (linkmateResponse_ this) = false ->
  mapLinks_ this = Throw TypeError.
Proof.
  unfold mapLinks_. now destruct (linkmateResponse_ this).
Qed.

Lemma truthy_false_not_array (v : JsVal) :
  truthy v = false -> isArray v = false.
Proof. now destruct v. Qed.

Section Caching.

Variable LINKMATE_ENDPOINT : string.
Variable deepEquals : list Anchor -> list Anchor -> bool.

(** X8.  Requests in flight are not taken into account: as long as no
    response is stored, every call issues a request of its own and
    leaves the instance as it is, so a run of calls before the first
    answer leaves one request in flight per call, in call order, equal
    anchor lists included. *)
Theorem calls_before_first_answer
  (pg : Page) (calls : list (list Anchor)) :
  truthy (linkmateResponse_ (instance pg)) = false ->
  exec LINKMATE_ENDPOINT deepEquals (map Call calls) pg
  = {| instance := instance pg;
       inFlight :=
         (inFlight pg ++
          map (fun anchorList =>
                 {| request :=
                      postToLinkmate_ LINKMATE_ENDPOINT (instance pg)
                        anchorList;
                    closureAnchorList := anchorList |}) calls)%list |}.
Proof.
  unfold exec. revert pg.
  induction calls as [|anchorList calls IH]; intros pg Hr.
  - cbn. rewrite app_nil_r. now destruct pg.
  - cbn [map fold_left step].
    rewrite (runLinkmate_unset LINKMATE_ENDPOINT deepEquals
               (instance pg) anchorList Hr).
    cbn [fst snd pendingOf asyncResponse].
    rewrite IH by exact Hr. cbn [instance inFlight].
    now rewrite <- app_assoc.
Qed.

(** X9.  Whatever calls are made on an instance and however its requests
    are settled, its configuration stays the one it was constructed
    with, and a truthy stored response always comes with a stored anchor
    list. *)
Theorem exec_keeps_configuration
  (ampDoc : AmpDoc) (linkmateOptions : LinkmateOptions)
  (events : list Event) :
  let pg := exec LINKMATE_ENDPOINT deepEquals events
              (newPage ampDoc linkmateOptions) in
  sameConfig (instance pg) (constructor ampDoc linkmateOptions) /\
  (truthy (linkmateResponse_ (instance pg)) = true ->
   anchorList_ (instance pg) <> None).
Proof.
  intros pg.
  destruct (pageInvariant_exec LINKMATE_ENDPOINT deepEquals ampDoc
              linkmateOptions events _
              (pageInvariant_newPage LINKMATE_ENDPOINT ampDoc
                 linkmateOptions)) as (H1 & H2 & _).
  now split.
Qed.

(** X10.  Every request an instance ever has in flight is the request a
    newly constructed instance would send for the same anchor list: the
    request depends on the configuration and on the anchors given to the
    call, never on what the instance has stored. *)
Theorem exec_requests_from_configuration
  (ampDoc : AmpDoc) (linkmateOptions : LinkmateOptions)
  (events : list Event) (p : AsyncMappedLinks) :
  In p (inFlight (exec LINKMATE_ENDPOINT deepEquals events
                    (newPage ampDoc linkmateOptions))) ->
  request p
  = postToLinkmate_ LINKMATE_ENDPOINT
      (constructor ampDoc linkmateOptions) (closureAnchorList p).
Proof.
  destruct (pageInvariant_exec LINKMATE_ENDPOINT deepEquals ampDoc
              linkmateOptions events _
              (pageInvariant_newPage LINKMATE_ENDPOINT ampDoc
                 linkmateOptions)) as (_ & _ & H).
  apply H.
Qed.

(** X11.  Answers are applied in the order they arrive, with no check of
    which request is the newer one: when a request is answered with a
    readable body, the instance ends in the same state, and the deferred
    half completes the same way, whatever another request stored just
    before. *)
Theorem settle_last_answer_wins
  (p1 p2 : AsyncMappedLinks) (o1 : XhrOutcome) (res2 v : JsVal)
  (now : Linkmate) :
  readSmartLinks res2 = Normal v ->
  settle p2 (JsonResolved res2) (snd (settle p1 o1 now))
  = settle p2 (JsonResolved res2) now.
Proof.
  intros Hres. cbn [settle].
  rewrite !(onResponse_readable _ _ _ _ Hres).
  now rewrite (stored_sameConfig v _ _ _ (settle_sameConfig p1 o1 now)).
Qed.

(** X12.  Once a request has been answered with a body whose
    [smart_links] is truthy, a call with an anchor list that
    [deepEquals] finds equal to the one of that request issues no
    request and returns a null synchronous half; it only takes over the
    list it was given. *)
Theorem runLinkmate_after_answer_same_anchors
  (p : AsyncMappedLinks) (res v : JsVal) (now : Linkmate)
  (anchorList : list Anchor) :
  readSmartLinks res = Normal v ->
  truthy v = true ->
  deepEquals (closureAnchorList p) anchorList = true ->
  runLinkmate LINKMATE_ENDPOINT deepEquals anchorList
    (snd (settle p (JsonResolved res) now))
  = (Normal {| syncResponse := None; asyncResponse := None |},
     set_anchorList_ (Some anchorList)
       (snd (settle p (JsonResolved res) now))).
Proof.
  intros Hres Hv Heq. cbn [settle].
  rewrite (onResponse_readable _ _ _ _ Hres). cbn [snd].
  apply runLinkmate_unchanged; [exact Hv|].
  unfold anchorListChanged. cbn. now rewrite Heq.
Qed.

(** X13.  When a request is answered with a readable body whose
    [smart_links] is falsy (missing, null, empty text), the deferred
    half rejects with a TypeError and the falsy value is stored; the
    next call then issues a request again, whatever anchor list it is
    given, and returns a null synchronous half. *)
Theorem runLinkmate_retries_after_falsy_answer
  (p : AsyncMappedLinks) (res v : JsVal) (now : Linkmate) :
  readSmartLinks res = Normal v ->
  truthy v = false ->
  fst (settle p (JsonResolved res) now) = Throw TypeError /\
  forall anchorList : list Anchor,
    runLinkmate LINKMATE_ENDPOINT deepEquals anchorList
      (snd (settle p (JsonResolved res) now))
    = (Normal
         {| syncResponse := None;
            asyncResponse :=
              Some {| request :=
                        postToLinkmate_ LINKMATE_ENDPOINT
                          (snd (settle p (JsonResolved res) now))
                          anchorList;
                      closureAnchorList := anchorList |} |},
       snd (settle p (JsonResolved res) now)).
Proof.
  intros Hres Hv. cbn [settle].
  rewrite (onResponse_readable _ _ _ _ Hres). cbn [fst snd]. split.
  - apply mapLinks_not_array. cbn. now apply truthy_false_not_array.
  - intros anchorList. now apply runLinkmate_unset.
Qed.

Lemma poisoned_step (pg : Page) (ev : Event) :
  poisoned (instance pg) ->
  inFlight pg = [] ->
  poisoned (instance (step LINKMATE_ENDPOINT deepEquals pg ev)) /\
  inFlight (step LINKMATE_ENDPOINT deepEquals pg ev) = [] /\
  linkmateResponse_ (instance (step LINKMATE_ENDPOINT deepEquals pg ev))
  = linkmateResponse_ (instance pg).
Proof.
  intros (Ht & Harr & Hanchors) Hflight. destruct ev as [anchorList | n o].
  - cbn [step instance inFlight]. rewrite Hflight. cbn [app].
    destruct (runLinkmate_cases LINKMATE_ENDPOINT deepEquals
                (instance pg) anchorList)
      as [[Hr H] | [(_ & _ & [(m & Hm & H) | (e & _ & H)]) | (_ & _ & H)]].
    + congruence.
    + rewrite (mapLinks_not_array _ Harr) in Hm. discriminate.
    + rewrite H. cbn. now repeat split.
    + rewrite H. cbn. repeat split; try assumption. discriminate.
  - cbn [step]. rewrite Hflight.
    destruct n; cbn; now repeat split.
Qed.

(** X14.  When a request is answered with a readable body whose
    [smart_links] is truthy but not an array (a text, an object), the
    deferred half rejects with a TypeError and the value is stored.  If
    no other request is in flight at that moment, the instance never
    issues a request again: after any further calls nothing is in flight
    and the stored value is still there. *)
Theorem stored_non_array_is_final
  (p : AsyncMappedLinks) (res v : JsVal) (now : Linkmate)
  (events : list Event) :
  readSmartLinks res = Normal v ->
  truthy v = true ->
  isArray v = false ->
  fst (settle p (JsonResolved res) now) = Throw TypeError /\
  inFlight
    (exec LINKMATE_ENDPOINT deepEquals events
       {| instance := snd (settle p (JsonResolved res) now);
          inFlight := [] |}) = [] /\
  linkmateResponse_
    (instance
       (exec LINKMATE_ENDPOINT deepEquals events
          {| instance := snd (settle p (JsonResolved res) now);
             inFlight := [] |})) = v.
Proof.
  intros Hres Hv Harr. cbn [settle].
  rewrite (onResponse_readable _ _ _ _ Hres). cbn [fst snd].
  split; [now apply mapLinks_not_array|].
  set (stuck := set_anchorList_ (Some (closureAnchorList p))
                  (set_linkmateResponse_ v now)).
  assert (H : forall pg,
    poisoned (instance pg) -> inFlight pg = [] ->
    inFlight (exec LINKMATE_ENDPOINT deepEquals events pg) = [] /\
    linkmateResponse_
      (instance (exec LINKMATE_ENDPOINT deepEquals events pg))
    = linkmateResponse_ (instance pg)).
  { unfold exec. induction events as [|ev events IH]; intros pg Hp Hf.
    - now split.
    - cbn [fold_left].
      destruct (poisoned_step pg ev Hp Hf) as (Hp' & Hf' & Hr').
      destruct (IH _ Hp' Hf') as [H1 H2]. split; [exact H1|]. congruence. }
  apply (H {| instance := stuck; inFlight := [] |}); [|reflexivity].
  repeat split; try assumption. discriminate.
Qed.

(** X15.  With [deepEquals] telling apart any two anchor lists that
    differ, a call that returns without a request leaves the instance
    exactly as it was, in every state the instance can be in after it
    was constructed. *)
Theorem runLinkmate_without_request_keeps_instance
  (ampDoc : AmpDoc) (linkmateOptions : LinkmateOptions)
  (events : list Event) (anchorList : list Anchor)
  (tsr : TwoStepsResponse) (this1 : Linkmate) :
  (forall l m, deepEquals l m = true -> l = m) ->
  runLinkmate LINKMATE_ENDPOINT deepEquals anchorList
    (instance (exec LINKMATE_ENDPOINT deepEquals events
                 (newPage ampDoc linkmateOptions)))
  = (Normal tsr, this1) ->
  asyncResponse tsr = None ->
  this1 = instance (exec LINKMATE_ENDPOINT deepEquals events
                      (newPage ampDoc linkmateOptions)).
Proof.
  intros Hsound.
  destruct (pageInvariant_exec LINKMATE_ENDPOINT deepEquals ampDoc
              linkmateOptions events _
              (pageInvariant_newPage LINKMATE_ENDPOINT ampDoc
                 linkmateOptions)) as (_ & Hcache & _).
  set (this := instance (exec LINKMATE_ENDPOINT deepEquals events
                           (newPage ampDoc linkmateOptions))) in *.
  intros Hrun Hnone.
  destruct (runLinkmate_cases LINKMATE_ENDPOINT deepEquals this anchorList)
    as [[_ H] | [(_ & _ & [(m & _ & H) | (e & _ & H)]) | (Hr & Hc & H)]];
    rewrite H in Hrun; try discriminate;
    injection Hrun as <- <-; try discriminate Hnone.
  unfold anchorListChanged in Hc.
  destruct (anchorList_ this) as [last|] eqn:Hlast;
    [|now destruct (Hcache Hr)].
  apply negb_false_iff in Hc. apply Hsound in Hc. subst last.
  destruct this; cbn in *. now subst.
Qed.

(** X16.  The synchronous half replays the last answer: when a request
    has resolved to a mapping, the next call with an anchor list that
    [deepEquals] tells apart from the one of that request returns, as
    its synchronous half, that very mapping, together with a new
    request for the list it was given. *)
Theorem runLinkmate_replays_last_mapping
  (p : AsyncMappedLinks) (res : JsVal) (now this : Linkmate)
  (mapped : list MappedLink) (anchorList : list Anchor) :
  settle p (JsonResolved res) now = (Normal mapped, this) ->
  deepEquals (closureAnchorList p) anchorList = false ->
  runLinkmate LINKMATE_ENDPOINT deepEquals anchorList this
  = (Normal
       {| syncResponse := Some mapped;
          asyncResponse :=
            Some {| request :=
                      postToLinkmate_ LINKMATE_ENDPOINT this anchorList;
                    closureAnchorList := anchorList |} |},
     this).
Proof.
  cbn [settle]. intros Hsettle Hneq.
  destruct (readSmartLinks res) as [v|e] eqn:Hres.
  - rewrite (onResponse_readable _ _ _ _ Hres) in Hsettle.
    injection Hsettle as Hm <-.
    destruct (mapLinks_Normal_inv _ _ Hm) as (items & Hr & _).
    rewrite runLinkmate_changed.
    + now rewrite Hm.
    + now rewrite Hr.
    + unfold anchorListChanged. cbn. now rewrite Hneq.
  - rewrite (onResponse_unreadable _ _ _ _ Hres) in Hsettle. discriminate.
Qed.

(** X17.  Every request an instance ever has in flight is a POST
    without AMP CORS and with a JSON content type; its article part has
    the URL of the document and, as its name, the title of the root node
    the document had when the instance was constructed if that title is
    truthy, and null otherwise (never an empty title); its links part is
    the links payload of the anchor list given to the call, built with
    the link attribute and the exclusive-links option the instance was
    constructed with. *)
Theorem exec_request_contents
  (ampDoc : AmpDoc) (linkmateOptions : LinkmateOptions)
  (events : list Event) (p : AsyncMappedLinks) :
  In p (inFlight (exec LINKMATE_ENDPOINT deepEquals events
                    (newPage ampDoc linkmateOptions))) ->
  method (postOptions (request p)) = "POST" /\
  ampCors (postOptions (request p)) = false /\
  headers (postOptions (request p))
  = [("Content-Type", "application/json")] /\
  url (article (body (postOptions (request p)))) = getUrl ampDoc /\
  (truthy (title (getRootNode ampDoc)) = true ->
   name (article (body (postOptions (request p))))
   = title (getRootNode ampDoc)) /\
  (truthy (title (getRootNode ampDoc)) = false ->
   name (article (body (postOptions (request p)))) = JNull) /\
  links (body (postOptions (request p)))
  = map (fun a =>
           {| raw_url := getProp a (linkAttribute linkmateOptions);
              exclusive_match_requested :=
                match exclusiveLinks linkmateOptions with
                | Some true => true
                | _ => regexpTestAtEnd "#locklink"
                         (getProp a (linkAttribute linkmateOptions))
                end |})
      (filter (fun a =>
                 negb (regexpTestAtEnd "#donotlink"
                         (getProp a (linkAttribute linkmateOptions))))
         (closureAnchorList p)).
Proof.
  intros Hin.
  destruct (pageInvariant_exec LINKMATE_ENDPOINT deepEquals ampDoc
              linkmateOptions events _
              (pageInvariant_newPage LINKMATE_ENDPOINT ampDoc
                 linkmateOptions)) as (_ & _ & H).
  rewrite (H p Hin).
  cbn [postToLinkmate_ postOptions method ampCors headers body article
       links getEditInfo_ url name constructor rootNode_ ampDoc_].
  do 4 (split; [reflexivity|]).
  split; [intros ->; reflexivity|]. split; [intros ->; reflexivity|].
  apply buildLinksPayload_filter_map.
Qed.

End Caching.

(** *** Instances of the further properties *)

Lemma mapLinks_empty_input_witness :
  (linkmateResponse_ noAnchors = JArr [smartLinkX1; JNull] /\
   ([smartLinkX1; JNull] = [] \/ anchorList_ noAnchors = Some [])) /\
  mapLinks_ noAnchors = Normal [].
Proof.
  split; [split; [reflexivity | right; reflexivity]|].
  exact (mapLinks_empty_input noAnchors [smartLinkX1; JNull] eq_refl
           (or_intror eq_refl)).
Defined.

Lemma mapLinks_entry_provenance_witness :
  (mapLinks_ twoAnchors
   = Normal [entryA; {| anchor := anchorB; replacementUrl := None |}] /\
   In entryA [entryA; {| anchor := anchorB; replacementUrl := None |}]) /\
  exists items anchors item,
    linkmateResponse_ twoAnchors = JArr items /\
    anchorList_ twoAnchors = Some anchors /\
    In item items /\ nullish item = false /\
    In (anchor entryA) anchors /\
    replacementUrl entryA
    = if strictEquals (linkOf twoAnchors (anchor entryA)) (member item "url")
      then Some ("https://shop-links.co/"
                 ++ toString (member item "auction_id")
                 ++ "/?amp=true")%string
      else None.
Proof.
  split; [split; [reflexivity | left; reflexivity]|].
  exact (mapLinks_entry_provenance twoAnchors
           [entryA; {| anchor := anchorB; replacementUrl := None |}]
           entryA eq_refl (or_introl eq_refl)).
Defined.

Lemma mapLinks_missing_keys_witness :
  (mapLinks_ withBare
   = Normal (mappingOf "href" [smartLinkX1; smartLinkBare]
               [anchorA; anchorBare]) /\
   linkmateResponse_ withBare = JArr [smartLinkX1; smartLinkBare] /\
   anchorList_ withBare = Some [anchorA; anchorBare] /\
   In smartLinkBare [smartLinkX1; smartLinkBare] /\
   In anchorBare [anchorA; anchorBare]) /\
  (linkOf withBare anchorBare = JUndefined ->
   member smartLinkBare "url" = JUndefined ->
   In {| anchor := anchorBare;
         replacementUrl :=
           Some ("https://shop-links.co/"
                 ++ toString (member smartLinkBare "auction_id")
                 ++ "/?amp=true")%string |}
      (mappingOf "href" [smartLinkX1; smartLinkBare]
         [anchorA; anchorBare])) /\
  (strictEquals (linkOf withBare anchorBare) (member smartLinkBare "url")
   = true ->
   member smartLinkBare "auction_id" = JUndefined ->
   In {| anchor := anchorBare;
         replacementUrl :=
           Some "https://shop-links.co/undefined/?amp=true" |}
      (mappingOf "href" [smartLinkX1; smartLinkBare]
         [anchorA; anchorBare])).
Proof.
  split;
    [repeat split; try reflexivity; right; left; reflexivity|].
  exact (mapLinks_missing_keys withBare
           (mappingOf "href" [smartLinkX1; smartLinkBare]
              [anchorA; anchorBare])
           [smartLinkX1; smartLinkBare]
           [anchorA; anchorBare] smartLinkBare anchorBare
           eq_refl eq_refl eq_refl
           (or_intror (or_introl eq_refl))
           (or_intror (or_introl eq_refl))).
Defined.

Lemma buildLinksPayload_missing_attribute_witness :
  (In anchorBare [anchorA; anchorBare] /\
   linkOf fresh anchorBare = JUndefined) /\
  In {| raw_url := JUndefined;
        exclusive_match_requested :=
          match requestExclusiveLinks_ fresh with
          | Some true => true
          | _ => false
          end |}
     (buildLinksPayload_ fresh [anchorA; anchorBare]).
Proof.
  split; [split; [right; left; reflexivity | reflexivity]|].
  exact (buildLinksPayload_missing_attribute fresh [anchorA; anchorBare]
           anchorBare (or_intror (or_introl eq_refl)) eq_refl).
Defined.

Lemma postToLinkmate_fetchUrl_witness :
  (index 0 "$" (toString (publisherID_ fresh)) = None /\
   exampleEndpoint
   = ("https://linkmate.example/publishers/" ++ ".pub_id."
      ++ "/smart_links")%string /\
   index 0 ".pub_id." exampleEndpoint
   = Some (String.length "https://linkmate.example/publishers/")) /\
  fetchUrl (postToLinkmate_ exampleEndpoint fresh [anchorA])
  = ("https://linkmate.example/publishers/"
     ++ toString (publisherID_ fresh) ++ "/smart_links")%string.
Proof.
  split; [repeat split|].
  exact (proj1 (postToLinkmate_fetchUrl exampleEndpoint fresh [anchorA]
                  eq_refl)
           "https://linkmate.example/publishers/" "/smart_links"
           eq_refl eq_refl).
Defined.

Lemma calls_before_first_answer_witness :
  truthy (linkmateResponse_ (instance (newPage exampleDoc exampleOptions)))
  = false /\
  exec exampleEndpoint structuralEquals
    (map Call [[anchorA]; [anchorA]]) (newPage exampleDoc exampleOptions)
  = {| instance := instance (newPage exampleDoc exampleOptions);
       inFlight :=
         (inFlight (newPage exampleDoc exampleOptions) ++
          map (fun anchorList =>
                 {| request :=
                      postToLinkmate_ exampleEndpoint
                        (instance (newPage exampleDoc exampleOptions))
                        anchorList;
                    closureAnchorList := anchorList |})
            [[anchorA]; [anchorA]])%list |}.
Proof.
  split; [reflexivity|].
  exact (calls_before_first_answer exampleEndpoint structuralEquals
           (newPage exampleDoc exampleOptions) [[anchorA]; [anchorA]]
           eq_refl).
Defined.

Lemma exec_requests_from_configuration_witness :
  In pendingA
    (inFlight (exec exampleEndpoint structuralEquals [Call [anchorA]]
                 (newPage exampleDoc exampleOptions))) /\
  request pendingA
  = postToLinkmate_ exampleEndpoint
      (constructor exampleDoc exampleOptions) (closureAnchorList pendingA).
Proof.
  split; [left; reflexivity|].
  exact (exec_requests_from_configuration exampleEndpoint structuralEquals
           exampleDoc exampleOptions [Call [anchorA]] pendingA
           (or_introl eq_refl)).
Defined.

Lemma settle_last_answer_wins_witness :
  readSmartLinks bodyX1 = Normal (JArr [smartLinkX1]) /\
  settle pendingA (JsonResolved bodyX1)
    (snd (settle pendingB (JsonResolved bodyWithoutSmartLinks) fresh))
  = settle pendingA (JsonResolved bodyX1) fresh.
Proof.
  split; [reflexivity|].
  exact (settle_last_answer_wins pendingB pendingA
           (JsonResolved bodyWithoutSmartLinks) bodyX1
           (JArr [smartLinkX1]) fresh eq_refl).
Defined.

Lemma runLinkmate_after_answer_same_anchors_witness :
  (readSmartLinks bodyX1 = Normal (JArr [smartLinkX1]) /\
   truthy (JArr [smartLinkX1]) = true /\
   structuralEquals (closureAnchorList pendingA) [anchorA] = true) /\
  runLinkmate exampleEndpoint structuralEquals [anchorA]
    (snd (settle pendingA (JsonResolved bodyX1) fresh))
  = (Normal {| syncResponse := None; asyncResponse := None |},
     set_anchorList_ (Some [anchorA])
       (snd (settle pendingA (JsonResolved bodyX1) fresh))).
Proof.
  split; [repeat split|].
  exact (runLinkmate_after_answer_same_anchors exampleEndpoint
           structuralEquals pendingA bodyX1 (JArr [smartLinkX1]) fresh
           [anchorA] eq_refl eq_refl eq_refl).
Defined.

Lemma runLinkmate_retries_after_falsy_answer_witness :
  (readSmartLinks bodyWithoutSmartLinks = Normal JUndefined /\
   truthy JUndefined = false) /\
  fst (settle pendingA (JsonResolved bodyWithoutSmartLinks) fresh)
  = Throw TypeError /\
  forall anchorList : list Anchor,
    runLinkmate exampleEndpoint structuralEquals anchorList
      (snd (settle pendingA (JsonResolved bodyWithoutSmartLinks) fresh))
    = (Normal
         {| syncResponse := None;
            asyncResponse :=
              Some {| request :=
                        postToLinkmate_ exampleEndpoint
                          (snd (settle pendingA
                                  (JsonResolved bodyWithoutSmartLinks)
                                  fresh))
                          anchorList;
                      closureAnchorList := anchorList |} |},
       snd (settle pendingA (JsonResolved bodyWithoutSmartLinks) fresh)).
Proof.
  split; [split; reflexivity|].
  exact (runLinkmate_retries_after_falsy_answer exampleEndpoint
           structuralEquals pendingA bodyWithoutSmartLinks JUndefined fresh
           eq_refl eq_refl).
Defined.

Lemma stored_non_array_is_final_witness :
  (readSmartLinks bodyWithText = Normal (JStr "none") /\
   truthy (JStr "none") = true /\
   isArray (JStr "none") = false) /\
  fst (settle pendingA (JsonResolved bodyWithText) fresh) = Throw TypeError /\
  inFlight
    (exec exampleEndpoint structuralEquals [Call [anchorB]; Call [anchorA]]
       {| instance := snd (settle pendingA (JsonResolved bodyWithText) fresh);
          inFlight := [] |}) = [] /\
  linkmateResponse_
    (instance
       (exec exampleEndpoint structuralEquals
          [Call [anchorB]; Call [anchorA]]
          {| instance :=
               snd (settle pendingA (JsonResolved bodyWithText) fresh);
             inFlight := [] |})) = JStr "none".
Proof.
  split; [repeat split|].
  exact (stored_non_array_is_final exampleEndpoint structuralEquals
           pendingA bodyWithText (JStr "none") fresh
           [Call [anchorB]; Call [anchorA]] eq_refl eq_refl eq_refl).
Defined.

Lemma runLinkmate_without_request_keeps_instance_witness :
  ((forall l m, structuralEquals l m = true -> l = m) /\
   runLinkmate exampleEndpoint structuralEquals [anchorA]
     (instance
        (exec exampleEndpoint structuralEquals
           [Call [anchorA]; Settle 0 (JsonResolved bodyX1)]
           (newPage exampleDoc exampleOptions)))
   = (Normal {| syncResponse := None; asyncResponse := None |}, cached) /\
   asyncResponse {| syncResponse := None; asyncResponse := None |}
   = None) /\
  cached
  = instance
      (exec exampleEndpoint structuralEquals
         [Call [anchorA]; Settle 0 (JsonResolved bodyX1)]
         (newPage exampleDoc exampleOptions)).
Proof.
  split; [split; [exact structuralEquals_eq | split; reflexivity]|].
  exact (runLinkmate_without_request_keeps_instance exampleEndpoint
           structuralEquals exampleDoc exampleOptions
           [Call [anchorA]; Settle 0 (JsonResolved bodyX1)] [anchorA]
           {| syncResponse := None; asyncResponse := None |} cached
           structuralEquals_eq eq_refl eq_refl).
Defined.

Lemma runLinkmate_replays_last_mapping_witness :
  (settle pendingA (JsonResolved bodyX1) fresh = (Normal [entryA], cached) /\
   structuralEquals (closureAnchorList pendingA) [anchorB] = false) /\
  runLinkmate exampleEndpoint structuralEquals [anchorB] cached
  = (Normal
       {| syncResponse := Some [entryA];
          asyncResponse :=
            Some {| request :=
                      postToLinkmate_ exampleEndpoint cached [anchorB];
                    closureAnchorList := [anchorB] |} |},
     cached).
Proof.
  split; [split; reflexivity|].
  exact (runLinkmate_replays_last_mapping exampleEndpoint structuralEquals
           pendingA bodyX1 fresh cached [entryA] [anchorB]
           eq_refl eq_refl).
Defined.

Lemma exec_request_contents_witness :
  In pendingA
    (inFlight (exec exampleEndpoint structuralEquals [Call [anchorA]]
                 (newPage exampleDoc exampleOptions))) /\
  method (postOptions (request pendingA)) = "POST" /\
  ampCors (postOptions (request pendingA)) = false /\
  headers (postOptions (request pendingA))
  = [("Content-Type", "application/json")] /\
  url (article (body (postOptions (request pendingA))))
  = getUrl exampleDoc /\
  (truthy (title (getRootNode exampleDoc)) = true ->
   name (article (body (postOptions (request pendingA))))
   = title (getRootNode exampleDoc)) /\
  (truthy (title (getRootNode exampleDoc)) = false ->
   name (article (body (postOptions (request pendingA)))) = JNull) /\
  links (body (postOptions (request pendingA)))
  = map (fun a =>
           {| raw_url := getProp a (linkAttribute exampleOptions);
              exclusive_match_requested :=
                match exclusiveLinks exampleOptions with
                | Some true => true
                | _ => regexpTestAtEnd "#locklink"
                         (getProp a (linkAttribute exampleOptions))
                end |})
      (filter (fun a =>
                 negb (regexpTestAtEnd "#donotlink"
                         (getProp a (linkAttribute exampleOptions))))
         (closureAnchorList pendingA)).
Proof.
  split; [left; reflexivity|].
  exact (exec_request_contents exampleEndpoint structuralEquals
           exampleDoc exampleOptions [Call [anchorA]] pendingA
           (or_introl eq_refl)).
Defined.

(* ===================================================================== *)
(** ** Requests and the two cache fields *)
(* ===================================================================== *)

Lemma readSmartLinks_shape (fields first : list (string * JsVal))
  (rest : list JsVal) (v : JsVal) :
  lookup "data" fields = JArr (JObj first :: rest) ->
  lookup "smart_links" first = v ->
  readSmartLinks (JObj fields) = Normal v.
Proof.
  intros Hd Hs. unfold readSmartLinks. cbn [getMember].
  rewrite Hd. cbn [getIndex0 getMember]. now rewrite Hs.
Qed.

Lemma mappingOf_described (attr : string) (items : list JsVal)
  (smartLinks : list SmartLink) (anchors : list Anchor) :
  Forall2 describes items smartLinks ->
  mappingOf attr items anchors
  = flat_map
      (fun s =>
         map (fun a =>
                {| anchor := a;
                   replacementUrl :=
                     if strictEquals (getProp a attr) (JStr (link_url s))
                     then Some ("https://shop-links.co/"
                                ++ link_auction_id s
                                ++ "/?amp=true")%string
                     else None |})
           anchors)
      smartLinks.
Proof.
  unfold mappingOf.
  induction 1 as [|v s items smartLinks Hv _ IH]; [reflexivity|].
  cbn [flat_map]. rewrite IH. f_equal.
  apply map_ext. intros a. now apply entryOf_described.
Qed.

Section Requests.

Variable LINKMATE_ENDPOINT : string.
Variable deepEquals : list Anchor -> list Anchor -> bool.



(** C6 (as amended).  For anchors whose link converts to a string and a
    publisher id that does, in a state where no response is stored, or
    where a list of smart links is stored together with an anchor list
    that [deepEquals] tells apart from the one given, [runLinkmate]
    returns, leaves the instance as it was, and issues a request for
    the anchor list given: a POST whose links are the entries of the
    anchors whose link does not end in ["#donotlink"], in order.  When
    that request is answered with a body whose [data[0].smart_links] is
    a list of smart links, the callback stores that list in
    [linkmateResponse_] and the anchor list given in [anchorList_],
    changes nothing else, and the deferred half resolves to the mapping
    of the new list onto the anchor list given. *)
Theorem runLinkmate_issues_request
  (this : Linkmate) (anchorList : list Anchor) :
  convertible (publisherID_ this) = true ->
  (forall a, In a anchorList -> convertible (linkOf this a) = true) ->
  truthy (linkmateResponse_ this) = false \/
  (exists items smartLinks last,
      linkmateResponse_ this = JArr items /\
      Forall2 describes items smartLinks /\
      anchorList_ this = Some last /\
      deepEquals last anchorList = false) ->
  exists (tsr : TwoStepsResponse) (p : AsyncMappedLinks),
    runLinkmate LINKMATE_ENDPOINT deepEquals anchorList this
    = (Normal tsr, this) /\
    asyncResponse tsr = Some p /\
    closureAnchorList p = anchorList /\
    method (postOptions (request p)) = "POST" /\
    links (body (postOptions (request p)))
    = map (fun a =>
             {| raw_url := linkOf this a;
                exclusive_match_requested :=
                  match requestExclusiveLinks_ this with
                  | Some true => true
                  | _ => regexpTestAtEnd "#locklink" (linkOf this a)
                  end |})
        (filter (fun a =>
                   negb (regexpTestAtEnd "#donotlink" (linkOf this a)))
           anchorList) /\
    forall (now : Linkmate) (fields first : list (string * JsVal))
           (rest items : list JsVal) (smartLinks : list SmartLink),
      lookup "data" fields = JArr (JObj first :: rest) ->
      lookup "smart_links" first = JArr items ->
      Forall2 describes items smartLinks ->
      exists after : Linkmate,
        settle p (JsonResolved (JObj fields)) now
        = (Normal
             (flat_map
                (fun s =>
                   map (fun a =>
                          {| anchor := a;
                             replacementUrl :=
                               if strictEquals (linkOf now a)
                                    (JStr (link_url s))
                               then Some ("https://shop-links.co/"
                                          ++ link_auction_id s
                                          ++ "/?amp=true")%string
                               else None |})
                     anchorList)
                smartLinks),
           after) /\
        linkmateResponse_ after = JArr items /\
        anchorList_ after = Some anchorList /\
        sameConfig after now.
Proof.
  intros _ _ Hstate.
  set (p := {| request := postToLinkmate_ LINKMATE_ENDPOINT this anchorList;
               closureAnchorList := anchorList |}).
  assert (Hanswer :
    forall (now : Linkmate) (fields first : list (string * JsVal))
           (rest items : list JsVal) (smartLinks : list SmartLink),
      lookup "data" fields = JArr (JObj first :: rest) ->
      lookup "smart_links" first = JArr items ->
      Forall2 describes items smartLinks ->
      exists after : Linkmate,
        settle p (JsonResolved (JObj fields)) now
        = (Normal
             (flat_map
                (fun s =>
                   map (fun a =>
                          {| anchor := a;
                             replacementUrl :=
                               if strictEquals (linkOf now a)
                                    (JStr (link_url s))
                               then Some ("https://shop-links.co/"
                                          ++ link_auction_id s
                                          ++ "/?amp=true")%string
                               else None |})
                     anchorList)
                smartLinks),
           after) /\
        linkmateResponse_ after = JArr items /\
        anchorList_ after = Some anchorList /\
        sameConfig after now).
  { intros now fields first rest items smartLinks Hd Hs Hitems.
    exists (set_anchorList_ (Some anchorList)
              (set_linkmateResponse_ (JArr items) now)).
    split; [|split; [reflexivity | split;
                                   [reflexivity | apply sameConfig_stored]]].
    cbn [settle p closureAnchorList].
    rewrite (onResponse_readable _ _ _ _
               (readSmartLinks_shape fields first rest _ Hd Hs)).
    f_equal.
    rewrite (mapLinks_mappingOf
               (set_anchorList_ (Some anchorList)
                  (set_linkmateResponse_ (JArr items) now))
               items anchorList eq_refl
               (describes_mappable _ items smartLinks anchorList Hitems)
               eq_refl).
    f_equal.
    exact (mappingOf_described _ items smartLinks anchorList Hitems). }
  assert (Hlinks :
    links (body (postOptions (request p)))
    = map (fun a =>
             {| raw_url := linkOf this a;
                exclusive_match_requested :=
                  match requestExclusiveLinks_ this with
                  | Some true => true
                  | _ => regexpTestAtEnd "#locklink" (linkOf this a)
                  end |})
        (filter (fun a =>
                   negb (regexpTestAtEnd "#donotlink" (linkOf this a)))
           anchorList)).
  { cbn [p request postToLinkmate_ postOptions body links].
    apply buildLinksPayload_filter_map. }
  destruct Hstate as [Hunset | (items & smartLinks & last & Hr & Hitems
                                 & Hlast & Hneq)].
  - eexists; exists p.
    rewrite (runLinkmate_unset LINKMATE_ENDPOINT deepEquals this
               anchorList Hunset).
    do 4 (split; [reflexivity|]). split; [exact Hlinks | exact Hanswer].
  - eexists; exists p.
    rewrite (runLinkmate_sync_from_stored_anchors LINKMATE_ENDPOINT
               deepEquals this anchorList last items Hr
               (describes_mappable _ items smartLinks last Hitems)
               Hlast Hneq).
    do 4 (split; [reflexivity|]). split; [exact Hlinks | exact Hanswer].
Qed.

End Requests.

(** C6 (as stated, refuted).  A new instance is given [[anchorA]] and
    its request is answered with a body whose [smart_links] is the text
    ["none"], which the callback stores.  The instance now has an anchor
    list, [[anchorA]], and [[anchorB]] differs from it; yet given
    [[anchorB]] it issues no request: [runLinkmate] throws a TypeError,
    from the synchronous mapping, before it gets to the request. *)
Lemma runLinkmate_throws_on_stored_text :
  let this :=
    instance
      (exec exampleEndpoint structuralEquals
         [Call [anchorA]; Settle 0 (JsonResolved bodyWithText)]
         (newPage exampleDoc exampleOptions)) in
  linkmateResponse_ this = JStr "none"
  /\ anchorList_ this = Some [anchorA]
  /\ structuralEquals [anchorA] [anchorB] = false
  /\ runLinkmate exampleEndpoint structuralEquals [anchorB] this
     = (Throw TypeError, this).
Proof. cbv zeta. repeat split. Qed.


Lemma runLinkmate_issues_request_witness :
  (convertible (publisherID_ cached) = true /\
   (forall a, In a [anchorB] -> convertible (linkOf cached a) = true) /\
   linkmateResponse_ cached = JArr [smartLinkX1] /\
   Forall2 describes [smartLinkX1] [mkSmartLink "http://a.com" "X1"] /\
   anchorList_ cached = Some [anchorA] /\
   structuralEquals [anchorA] [anchorB] = false) /\
  exists (tsr : TwoStepsResponse) (p : AsyncMappedLinks),
    runLinkmate exampleEndpoint structuralEquals [anchorB] cached
    = (Normal tsr, cached) /\
    asyncResponse tsr = Some p /\
    closureAnchorList p = [anchorB] /\
    method (postOptions (request p)) = "POST" /\
    links (body (postOptions (request p)))
    = map (fun a =>
             {| raw_url := linkOf cached a;
                exclusive_match_requested :=
                  match requestExclusiveLinks_ cached with
                  | Some true => true
                  | _ => regexpTestAtEnd "#locklink" (linkOf cached a)
                  end |})
        (filter (fun a =>
                   negb (regexpTestAtEnd "#donotlink" (linkOf cached a)))
           [anchorB]) /\
    forall (now : Linkmate) (fields first : list (string * JsVal))
           (rest items : list JsVal) (smartLinks : list SmartLink),
      lookup "data" fields = JArr (JObj first :: rest) ->
      lookup "smart_links" first = JArr items ->
      Forall2 describes items smartLinks ->
      exists after : Linkmate,
        settle p (JsonResolved (JObj fields)) now
        = (Normal
             (flat_map
                (fun s =>
                   map (fun a =>
                          {| anchor := a;
                             replacementUrl :=
                               if strictEquals (linkOf now a)
                                    (JStr (link_url s))
                               then Some ("https://shop-links.co/"
                                          ++ link_auction_id s
                                          ++ "/?amp=true")%string
                               else None |})
                     [anchorB])
                smartLinks),
           after) /\
        linkmateResponse_ after = JArr items /\
        anchorList_ after = Some [anchorB] /\
        sameConfig after now.
Proof.
  assert (Hlinks : forall a, In a [anchorB] ->
                             convertible (linkOf cached a) = true).
  { intros a [<- | []]. reflexivity. }
  assert (Hitems : Forall2 describes [smartLinkX1]
                     [mkSmartLink "http://a.com" "X1"]).
  { repeat constructor. }
  split; [repeat split; [exact Hlinks | exact Hitems]|].
  exact (runLinkmate_issues_request exampleEndpoint structuralEquals
           cached [anchorB] eq_refl Hlinks
           (or_intror
              (ex_intro _ [smartLinkX1]
                 (ex_intro _ [mkSmartLink "http://a.com" "X1"]
                    (ex_intro _ [anchorA]
                       (conj eq_refl
                          (conj Hitems (conj eq_refl eq_refl)))))))).
Defined.
